(** * scrapy-x: the queue consumer of [scrapyx/x.py]

    A shallow embedding of [Command.boot] (queue key names) and
    [Command.consumer] (the blocking worker loop) together with the
    properties of the worker-pool specification that concern them.

    Python objects are modelled by [pyval]; the Redis server, the logger
    and the crawl executor are modelled by an explicit [World] that the
    consumer threads through a small state-and-exception monad. *)

From Stdlib Require Import ZArith Ascii String List Bool Lia.
From stdpp Require Import base option gmap strings list fin_maps.

#[local] Set Warnings "-register-all".
Local Open Scope string_scope.
Local Open Scope Z_scope.

(** ** Python values *)

(** What [json.loads] can return, plus [None].  A float keeps the text of
    its literal: no claim below computes with it. *)
Inductive pyval : Type :=
| PyNone
| PyBool (b : bool)
| PyInt (n : Z)
| PyFloat (lit : string)
| PyStr (s : string)
| PyList (items : list pyval)
| PyDict (entries : list (string * pyval)).

(** A Python [dict] with [str] keys, in insertion order. *)
Abbreviation pydict := (list (string * pyval)).

(** [d.get(k)]: the value of the entry with key [k]; keys are unique in a
    dict built by [dict_set]. *)
Fixpoint dict_get (k : string) (d : pydict) : option pyval :=
  match d with
  | [] => None
  | (k', v) :: d' => if String.eqb k k' then Some v else dict_get k d'
  end.

(** [d[k] = v]: overwrite in place when the key exists, append otherwise. *)
Fixpoint dict_set (k : string) (v : pyval) (d : pydict) : pydict :=
  match d with
  | [] => [(k, v)]
  | (k', v') :: d' =>
      if String.eqb k k' then (k', v) :: d' else (k', v') :: dict_set k v d'
  end.

(** [type(v).__name__] *)
Definition type_name (v : pyval) : string :=
  match v with
  | PyNone => "NoneType"
  | PyBool _ => "bool"
  | PyInt _ => "int"
  | PyFloat _ => "float"
  | PyStr _ => "str"
  | PyList _ => "list"
  | PyDict _ => "dict"
  end.

(** [isinstance(v, dict)] *)
Definition isinstance_dict (v : pyval) : bool :=
  match v with PyDict _ => true | _ => false end.

(** An instance of [Exception]: its class and [str(e)].  Strings are ASCII
    text.  What does not derive from [Exception] ([KeyboardInterrupt],
    [SystemExit]) is not modelled: no handler of the consumer catches
    it. *)
Record PyExc : Type := mkExc { exc_class : string; exc_str : string }.

Definition AttributeError (v : pyval) (attr : string) : PyExc :=
  mkExc "AttributeError"
        ("'" +:+ type_name v +:+ "' object has no attribute '" +:+ attr +:+ "'").

Definition UnhashableType (v : pyval) : PyExc :=
  mkExc "TypeError" ("unhashable type: '" +:+ type_name v +:+ "'").

Definition KeyError (k : string) : PyExc :=
  mkExc "KeyError" ("'" +:+ k +:+ "'").

(** ** [str.strip] and the truth value of a string *)

(** [c.isspace()] on the ASCII range: TAB, LF, VT, FF, CR, FS, GS, RS, US
    and the space. *)
Definition isspace (c : ascii) : bool :=
  let n := Z.of_nat (nat_of_ascii c) in
  ((9 <=? n) && (n <=? 13)) || ((28 <=? n) && (n <=? 32)).

Fixpoint lstrip (s : string) : string :=
  match s with
  | EmptyString => EmptyString
  | String c s' => if isspace c then lstrip s' else s
  end.

(** Drop the trailing white space: a character stays when something that
    stays follows it, or when it is not white space itself. *)
Fixpoint rstrip (s : string) : string :=
  match s with
  | EmptyString => EmptyString
  | String c s' =>
      match rstrip s' with
      | EmptyString => if isspace c then EmptyString else String c EmptyString
      | t => String c t
      end
  end.

Definition strip (s : string) : string := rstrip (lstrip s).

(** [bool(s)] for a [str]. *)
Definition str_truth (s : string) : bool :=
  match s with EmptyString => false | _ => true end.

(** Every character of [s] is white space (true of the empty string). *)
Fixpoint all_space (s : string) : bool :=
  match s with
  | EmptyString => true
  | String c s' => isspace c && all_space s'
  end.

(** ** The job registry *)

(** A runnable handle (a spider class found by [utils.discover_spiders]):
    its name and its truth value, which [if not spider] consults. *)
Record handle : Type := mkHandle { handle_name : string; handle_truth : bool }.

(** [self.spiders.get(name, None)] on a registry keyed by spider names
    ([str]): a list or a dict is unhashable and makes [dict.get] raise
    [TypeError]; any other value that is not a [str] equals no key. *)
Definition spiders_get (spiders : gmap string handle) (name : pyval)
  : PyExc + option handle :=
  match name with
  | PyStr s => inr (spiders !! s)
  | PyList _ | PyDict _ => inl (UnhashableType name)
  | _ => inr None
  end.

(** [not spider] for the result of [spiders_get]. *)
Definition not_spider (spider : option handle) : bool :=
  match spider with
  | None => true
  | Some h => negb (handle_truth h)
  end.

(** ** Logging *)

Inductive level : Type := INFO | WARNING | CRITICAL.

(** An argument handed to [str.format]: a string, a Python value (rendered
    by [str()], which is not modelled), or [traceback.format_exc()]. *)
Inductive fmt_arg : Type :=
| FStr (s : string)
| FVal (v : pyval)
| FTraceback (e : PyExc).

(** One call of [self.logger.<level>(template.format(args))]. *)
Record log_record : Type :=
  mkLog { log_level : level; log_template : string; log_args : list fmt_arg }.

(** ** The world a consumer runs in *)

(** A command sent over the consumer's connection. *)
Inductive redis_cmd : Type :=
| BLPOP (key : string)
| INCR (key : string) (amount : Z)
| EXPIRE (key : string) (seconds : Z).

(** The Redis server holds the backlog lists, the integer counters and
    the time to live of the keys that have one.  [faults] is the fault
    plan of the connection: every call of the client takes its head, and
    [Some e] makes that call raise [e] (a lost connection, an error reply)
    instead of running.  [crawl_plan] does the same for [utils.crawl].
    [log], [crawled] and [issued] record, oldest first, what the logger
    printed, which jobs were handed to the executor and which commands
    reached the server. *)
Record World : Type := mkWorld {
  backlog : gmap string (list string);
  counters : gmap string Z;
  expiry : gmap string Z;
  faults : list (option PyExc);
  crawl_plan : list (option PyExc);
  log : list log_record;
  crawled : list (handle * pydict);
  issued : list redis_cmd
}.

Definition set_backlog (f : gmap string (list string) -> gmap string (list string))
  (w : World) : World :=
  mkWorld (f (backlog w)) (counters w) (expiry w) (faults w) (crawl_plan w)
          (log w) (crawled w) (issued w).

Definition set_counters (f : gmap string Z -> gmap string Z) (w : World) : World :=
  mkWorld (backlog w) (f (counters w)) (expiry w) (faults w) (crawl_plan w)
          (log w) (crawled w) (issued w).

Definition set_expiry (f : gmap string Z -> gmap string Z) (w : World) : World :=
  mkWorld (backlog w) (counters w) (f (expiry w)) (faults w) (crawl_plan w)
          (log w) (crawled w) (issued w).

Definition set_faults (fs : list (option PyExc)) (w : World) : World :=
  mkWorld (backlog w) (counters w) (expiry w) fs (crawl_plan w)
          (log w) (crawled w) (issued w).

Definition set_crawl_plan (cs : list (option PyExc)) (w : World) : World :=
  mkWorld (backlog w) (counters w) (expiry w) (faults w) cs
          (log w) (crawled w) (issued w).

Definition add_log (r : log_record) (w : World) : World :=
  mkWorld (backlog w) (counters w) (expiry w) (faults w) (crawl_plan w)
          (log w ++ [r]) (crawled w) (issued w).

Definition add_crawled (c : handle * pydict) (w : World) : World :=
  mkWorld (backlog w) (counters w) (expiry w) (faults w) (crawl_plan w)
          (log w) (crawled w ++ [c]) (issued w).

Definition add_issued (c : redis_cmd) (w : World) : World :=
  mkWorld (backlog w) (counters w) (expiry w) (faults w) (crawl_plan w)
          (log w) (crawled w) (issued w ++ [c]).

(** ** The monad of the consumer *)

(** How a piece of the consumer ends: it returns, an [Exception]
    propagates, [os._exit] ends the whole process (every thread of it, at
    once and without unwinding any of them), the thread sleeps in [blpop]
    on an empty list, or the fuel of the model ran out. *)
Inductive outcome (A : Type) : Type :=
| Done (a : A)
| Raised (e : PyExc)
| Exited (code : Z)
| Blocked
| Unfinished.

Arguments Done {A} a.
Arguments Raised {A} e.
Arguments Exited {A} code.
Arguments Blocked {A}.
Arguments Unfinished {A}.

Definition M (A : Type) : Type := World -> outcome A * World.

Definition ret {A : Type} (a : A) : M A := fun w => (Done a, w).

Definition bind {A B : Type} (m : M A) (k : A -> M B) : M B :=
  fun w =>
    match m w with
    | (Done a, w') => k a w'
    | (Raised e, w') => (Raised e, w')
    | (Exited c, w') => (Exited c, w')
    | (Blocked, w') => (Blocked, w')
    | (Unfinished, w') => (Unfinished, w')
    end.

Notation "'let!' x ':=' m 'in' k" := (bind m (fun x => k))
  (at level 10, x pattern, m at level 100, k at level 200).
Notation "m ';;' k" := (bind m (fun _ => k))
  (at level 100, k at level 200, right associativity).

Definition raise {A : Type} (e : PyExc) : M A := fun w => (Raised e, w).

(** [try: body  except Exception as e: handler(e)].  Only a raised
    exception reaches the handler: [os._exit] does not unwind. *)
Definition try_except {A : Type} (body : M A) (handler : PyExc -> M A) : M A :=
  fun w =>
    match body w with
    | (Raised e, w') => handler e w'
    | r => r
    end.

(** [os._exit(code)]: the process ends here, without cleanup; the code
    [-1] is reported by the operating system as status 255. *)
Definition os__exit {A : Type} (code : Z) : M A := fun w => (Exited code, w).

(** Lift a computation that returns or raises. *)
Definition lift {A : Type} (r : PyExc + A) : M A :=
  match r with
  | inl e => raise e
  | inr a => ret a
  end.

(** [d[k]] on one of the key tables of the command object. *)
Definition getitem (d : gmap string string) (k : string) : M string :=
  match d !! k with
  | Some v => ret v
  | None => raise (KeyError k)
  end.

Definition logger (l : level) (template : string) (args : list fmt_arg) : M unit :=
  fun w => (Done tt, add_log (mkLog l template args) w).

(** ** The Redis client *)

(** Take the head of the fault plan; an exhausted plan means no fault. *)
Definition next_fault : M unit :=
  fun w =>
    match faults w with
    | [] => (Done tt, w)
    | None :: fs => (Done tt, set_faults fs w)
    | Some e :: fs => (Raised e, set_faults fs w)
    end.

(** [redis.Redis(host=..., port=..., password=..., db=...)] *)
Definition redis_Redis : M unit := next_fault.

(** [r.blpop(key)] without timeout: pops the head of the list, or sleeps
    until somebody pushes.  The reply is the pair of the key and the
    element.  A list that has become empty is kept as the empty list. *)
Definition blpop (key : string) : M (string * string) :=
  next_fault ;;
  fun w =>
    let w := add_issued (BLPOP key) w in
    match backlog w !! key with
    | Some (x :: xs) => (Done (key, x), set_backlog (insert key xs) w)
    | _ => (Blocked, w)
    end.

(** [r.incr(key, amount=amount)]: a missing key counts as 0; the reply is
    the value after the increment.  The time to live is left alone. *)
Definition incr (key : string) (amount : Z) : M Z :=
  next_fault ;;
  fun w =>
    let n := default 0 (counters w !! key) + amount in
    (Done n, set_counters (insert key n) (add_issued (INCR key amount) w)).

(** [r.expire(key, seconds)] *)
Definition expire (key : string) (seconds : Z) : M unit :=
  next_fault ;;
  fun w =>
    let w := add_issued (EXPIRE key seconds) w in
    match counters w !! key with
    | Some _ => (Done tt, set_expiry (insert key seconds) w)
    | None => (Done tt, w)
    end.

(** ** The executor *)

(** [utils.crawl(spider, self.settings, args)]: the call is recorded and
    ends as the head of the crawl plan says. *)
Definition crawl (spider : handle) (args : pydict) : M unit :=
  fun w =>
    let w := add_crawled (spider, args) w in
    match crawl_plan w with
    | [] => (Done tt, w)
    | None :: cs => (Done tt, set_crawl_plan cs w)
    | Some e :: cs => (Raised e, set_crawl_plan cs w)
    end.

(** ** The command object and [Command.boot] *)

(** The settings [boot] reads for the queues; [None] is an unset name. *)
Record Settings : Type := mkSettings {
  X_QUEUE_NAME : option string;
  X_QUEUE_WORKERS_COUNT : option (list (string * Z))
}.

(** The attributes of [self] the consumer uses. *)
Record Command : Type := mkCommand {
  queue_name : string;
  queue_workers_count : list (string * Z);
  spiders : gmap string handle;
  queue_backlog_names : gmap string string;
  queue_finished_counter_names : gmap string string;
  queue_consumers_rpm_names : gmap string string
}.

(** The three key tables, as the loop of [boot] (lines 104-111) fills
    them. *)
Record key_tables : Type := mkTables {
  backlog_names : gmap string string;
  finished_counter_names : gmap string string;
  consumers_rpm_names : gmap string string
}.

(** The body of that loop for one suffix. *)
Definition boot_step (queue_name : string) (t : key_tables)
  (queue_name_suffix : string) : key_tables :=
  let backlog_full_name := queue_name +:+ "." +:+ queue_name_suffix +:+ ".BACKLOG" in
  let counter_full_name := queue_name +:+ "." +:+ queue_name_suffix +:+ ".C.FINISHED." in
  let rpm_full_name := queue_name +:+ "." +:+ queue_name_suffix +:+ ".C.RPM." in
  mkTables (<[queue_name_suffix := backlog_full_name]> (backlog_names t))
           (<[queue_name_suffix := counter_full_name]> (finished_counter_names t))
           (<[queue_name_suffix := rpm_full_name]> (consumers_rpm_names t)).

(** [boot], for what concerns the queues: [cpu_count] is [os.cpu_count()]
    and [discovered] the result of [utils.discover_spiders]. *)
Definition boot (settings : Settings) (cpu_count : Z)
  (discovered : gmap string handle) : Command :=
  let queue_name := default "SCRAPY_X_QUEUE" (X_QUEUE_NAME settings) in
  let queue_workers_count :=
    default [("default", cpu_count)] (X_QUEUE_WORKERS_COUNT settings) in
  let t := fold_left (boot_step queue_name) (map fst queue_workers_count)
                     (mkTables ∅ ∅ ∅) in
  mkCommand queue_name queue_workers_count discovered
            (backlog_names t) (finished_counter_names t) (consumers_rpm_names t).

(** ** [Command.consumer] *)

(** [task.get(k, dflt)]: only a dict has the method. *)
Definition task_get (task : pyval) (k : string) (dflt : pyval) : M pyval :=
  match task with
  | PyDict d => ret (default dflt (dict_get k d))
  | _ => raise (AttributeError task "get")
  end.

Section Consumer.

(** [json.loads] of the standard library: the decoded value, or the
    exception it raises. *)
Variable json_loads : string -> PyExc + pyval.

Variable self : Command.
Variable queue_name_suffix : string.

(** Lines 138-139: the body of the first [try]. *)
Definition dequeue : M (string * string) :=
  let! key := getitem (queue_backlog_names self) queue_name_suffix in
  blpop key.

(** Lines 137-142: the blocking pop; any exception is fatal. *)
Definition pop_payload : M string :=
  let! reply :=
    try_except
      dequeue
      (fun e =>
         logger CRITICAL "queue error {}" [FStr (exc_str e)] ;;
         os__exit (-1)) in
  ret (snd reply).

(** Lines 144-149: [None] stands for the [continue] of the handler. *)
Definition load_task (payload : string) : M (option pyval) :=
  try_except
    (let! task := lift (json_loads payload) in ret (Some task))
    (fun e =>
       logger CRITICAL "invalid task payload {}" [FStr (exc_str e)] ;;
       ret None).

(** Lines 154-165: the spider name, the spider and the arguments. *)
Definition read_task (task : pyval) : M (pyval * option handle * pydict) :=
  let! spider_name := task_get task "spider" PyNone in
  let! spider := lift (spiders_get (spiders self) spider_name) in
  let! args := task_get task "args" (PyDict []) in
  let! args :=
    match args with
    | PyDict d => ret d
    | _ =>
        logger WARNING "invalid args object, replacing it with empty one {}"
               [FVal args] ;;
        ret []
    end in
  ret (spider_name, spider, args).

(** Lines 172-177: the executor call and its handler. *)
Definition run_crawl (spider : handle) (args : pydict) : M unit :=
  try_except
    (crawl spider args)
    (fun e =>
       if str_truth (strip (exc_str e))
       then logger CRITICAL "exception from scrapy {}" [FStr (exc_str e)]
       else ret tt).

(** Lines 179-190: the finished counter and the RPM counter. *)
Definition record_stats : M unit :=
  let! finished := getitem (queue_finished_counter_names self) queue_name_suffix in
  incr finished 1 ;;
  let! rpm := getitem (queue_consumers_rpm_names self) queue_name_suffix in
  let! n := incr rpm 1 in
  if n =? 1
  then
    let! rpm := getitem (queue_consumers_rpm_names self) queue_name_suffix in
    expire rpm 60
  else ret tt.

(** Lines 167-190: an unknown spider is skipped with [continue]; a known
    one is crawled and counted. *)
Definition finish_job (spider_name : pyval) (spider : option handle)
  (args : pydict) : M unit :=
  match spider with
  | Some h =>
      if negb (handle_truth h)
      then logger CRITICAL "unknwon spider {}" [FVal spider_name]
      else (run_crawl h args ;; record_stats)
  | None => logger CRITICAL "unknwon spider {}" [FVal spider_name]
  end.

(** Lines 137-190: one turn of [while True].  Returning early is the
    [continue] of the source. *)
Definition consumer_iteration : M unit :=
  let! payload := pop_payload in
  let! task := load_task payload in
  match task with
  | None => ret tt
  | Some task =>
      logger INFO "detected new job and started working on it ..." [] ;;
      let! job := read_task task in
      let '(spider_name, spider, args) := job in
      finish_job spider_name spider args
  end.

(** [while True]: the model runs at most [fuel] turns. *)
Fixpoint consumer_loop (fuel : nat) : M unit :=
  match fuel with
  | O => fun w => (Unfinished, w)
  | S fuel' => consumer_iteration ;; consumer_loop fuel'
  end.

Definition QueueWorkerExit : string :=
  " QueueWorkerExit({}) due to the following error ({}), and here is the details:
                ------------
                    {}
                ------------
                ".

(** Lines 118-200. *)
Definition consumer (fuel : nat) : M unit :=
  logger INFO "a new consumer (thread) has been started for queue {}"
         [FStr queue_name_suffix] ;;
  try_except
    (try_except
       redis_Redis
       (fun e =>
          logger CRITICAL "[redis] {}" [FStr (exc_str e)] ;;
          os__exit (-1)) ;;
     consumer_loop fuel)
    (fun e =>
       logger CRITICAL QueueWorkerExit
              [FStr queue_name_suffix; FStr (exc_str e); FTraceback e] ;;
       os__exit (-1)).

End Consumer.

(** ** A JSON decoder for concrete payloads

    The consumer is parametric in [json.loads].  To run it on sample
    payloads, [json_loads_ascii] decodes ASCII JSON text the way
    [json.loads] does: objects (a repeated key keeps its first position
    and its last value), arrays, strings with the one-letter escapes,
    integers, floats (kept as text), [true], [false], [null], [NaN] and
    the infinities.  It does not decode [\u] escapes and reports them as
    errors; the text of the error message is not reproduced. *)
Module Json.

Definition quote : ascii := "034"%char.
Definition backslash : ascii := "092"%char.

Definition is_ws (c : ascii) : bool :=
  match nat_of_ascii c with
  | 32%nat | 9%nat | 10%nat | 13%nat => true
  | _ => false
  end.

Definition is_digit (c : ascii) : bool :=
  let n := nat_of_ascii c in (48 <=? n)%nat && (n <=? 57)%nat.

Fixpoint skip_ws (s : string) : string :=
  match s with
  | String c r => if is_ws c then skip_ws r else s
  | EmptyString => s
  end.

(** The longest prefix of digits, and what follows it. *)
Fixpoint span_digits (s : string) : string * string :=
  match s with
  | String c r =>
      if is_digit c
      then let '(ds, rest) := span_digits r in (String c ds, rest)
      else (EmptyString, s)
  | EmptyString => (EmptyString, EmptyString)
  end.

Fixpoint decimal (acc : Z) (ds : string) : Z :=
  match ds with
  | String c r => decimal (10 * acc + (Z.of_nat (nat_of_ascii c) - 48)) r
  | EmptyString => acc
  end.

(** [s] starts with [p]: what follows [p]. *)
Fixpoint after (p s : string) : option string :=
  match p, s with
  | EmptyString, _ => Some s
  | String a p', String b s' => if Ascii.eqb a b then after p' s' else None
  | _, _ => None
  end.

(** The character an escape letter stands for. *)
Definition unescape (c : ascii) : option ascii :=
  match nat_of_ascii c with
  | 34%nat => Some quote
  | 92%nat => Some backslash
  | 47%nat => Some "/"%char
  | 98%nat => Some "008"%char
  | 102%nat => Some "012"%char
  | 110%nat => Some "010"%char
  | 114%nat => Some "013"%char
  | 116%nat => Some "009"%char
  | _ => None
  end.

(** The characters of a string literal after its opening quote, up to the
    closing one; a control character is refused. *)
Fixpoint chars (s : string) : option (string * string) :=
  match s with
  | EmptyString => None
  | String c r =>
      if Ascii.eqb c quote then Some (EmptyString, r)
      else if Ascii.eqb c backslash then
        match r with
        | String e r' =>
            match unescape e, chars r' with
            | Some c', Some (t, rest) => Some (String c' t, rest)
            | _, _ => None
            end
        | EmptyString => None
        end
      else if (nat_of_ascii c <? 32)%nat then None
      else
        match chars r with
        | Some (t, rest) => Some (String c t, rest)
        | None => None
        end
  end.

(** A number after its sign: an integer part without a leading zero,
    then an optional fraction and an optional exponent, each with at least
    one digit.  Without both it is an [int], otherwise a [float]. *)
Definition number (negative : bool) (s : string) : option (pyval * string) :=
  let sign := if negative then "-" else "" in
  let '(int_part, r) :=
    match s with
    | String "0" r => ("0", r)
    | _ => span_digits s
    end in
  match int_part with
  | EmptyString => None
  | _ =>
      let '(frac, r1) :=
        match r with
        | String "." r' =>
            match span_digits r' with
            | (EmptyString, _) => (EmptyString, r)
            | (ds, rest) => ("." +:+ ds, rest)
            end
        | _ => (EmptyString, r)
        end in
      let '(expo, r2) :=
        match r1 with
        | String e r' =>
            if Ascii.eqb e "e" || Ascii.eqb e "E" then
              let '(sg, r'') :=
                match r' with
                | String "+" t => ("+", t)
                | String "-" t => ("-", t)
                | _ => (EmptyString, r')
                end in
              match span_digits r'' with
              | (EmptyString, _) => (EmptyString, r1)
              | (ds, rest) => (String e sg +:+ ds, rest)
              end
            else (EmptyString, r1)
        | EmptyString => (EmptyString, r1)
        end in
      match frac, expo with
      | EmptyString, EmptyString =>
          let n := decimal 0 int_part in
          Some (PyInt (if negative then - n else n), r2)
      | _, _ => Some (PyFloat (sign +:+ int_part +:+ frac +:+ expo), r2)
      end
  end.

(** A JSON value at the head of [s] (after white space) and the rest of
    the text; [elements] and [members] read what follows the opening
    bracket of a non-empty array or object. *)
Fixpoint value (fuel : nat) (s : string) : option (pyval * string) :=
  match fuel with
  | O => None
  | S fuel' =>
      match skip_ws s with
      | EmptyString => None
      | String c r as t =>
          if Ascii.eqb c quote then
            match chars r with
            | Some (str, rest) => Some (PyStr str, rest)
            | None => None
            end
          else if Ascii.eqb c "{" then
            match skip_ws r with
            | String "}" rest => Some (PyDict [], rest)
            | _ => members fuel' r []
            end
          else if Ascii.eqb c "[" then
            match skip_ws r with
            | String "]" rest => Some (PyList [], rest)
            | _ => elements fuel' r []
            end
          else if Ascii.eqb c "-" then
            match after "Infinity" r with
            | Some rest => Some (PyFloat "-Infinity", rest)
            | None => number true r
            end
          else if is_digit c then number false t
          else
            match after "null" t, after "true" t, after "false" t,
                  after "NaN" t, after "Infinity" t with
            | Some rest, _, _, _, _ => Some (PyNone, rest)
            | _, Some rest, _, _, _ => Some (PyBool true, rest)
            | _, _, Some rest, _, _ => Some (PyBool false, rest)
            | _, _, _, Some rest, _ => Some (PyFloat "NaN", rest)
            | _, _, _, _, Some rest => Some (PyFloat "Infinity", rest)
            | _, _, _, _, _ => None
            end
      end
  end
with elements (fuel : nat) (s : string) (acc : list pyval)
  : option (pyval * string) :=
  match fuel with
  | O => None
  | S fuel' =>
      match value fuel' s with
      | Some (v, r) =>
          match skip_ws r with
          | String "," r' => elements fuel' r' (acc ++ [v])
          | String "]" r' => Some (PyList (acc ++ [v]), r')
          | _ => None
          end
      | None => None
      end
  end
with members (fuel : nat) (s : string) (acc : pydict)
  : option (pyval * string) :=
  match fuel with
  | O => None
  | S fuel' =>
      match skip_ws s with
      | String c r =>
          if Ascii.eqb c quote then
            match chars r with
            | Some (k, r1) =>
                match skip_ws r1 with
                | String ":" r2 =>
                    match value fuel' r2 with
                    | Some (v, r3) =>
                        match skip_ws r3 with
                        | String "," r4 => members fuel' r4 (dict_set k v acc)
                        | String "}" r4 => Some (PyDict (dict_set k v acc), r4)
                        | _ => None
                        end
                    | None => None
                    end
                | _ => None
                end
            | None => None
            end
          else None
      | EmptyString => None
      end
  end.

Definition JSONDecodeError : PyExc := mkExc "JSONDecodeError" "invalid JSON text".

(** A whole document: one value and nothing but white space after it. *)
Definition loads (s : string) : PyExc + pyval :=
  match value (S (String.length s)) s with
  | Some (v, rest) =>
      match skip_ws rest with
      | EmptyString => inr v
      | _ => inl JSONDecodeError
      end
  | None => inl JSONDecodeError
  end.

(** Sample payloads are written with ['] for the double quote. *)
Fixpoint text (s : string) : string :=
  match s with
  | String c r => String (if Ascii.eqb c "'" then quote else c) (text r)
  | EmptyString => EmptyString
  end.

End Json.

Definition json_loads_ascii : string -> PyExc + pyval := Json.loads.

(** ** Log records *)

Definition scrapy_exception (e : PyExc) : log_record :=
  mkLog CRITICAL "exception from scrapy {}" [FStr (exc_str e)].

Definition invalid_args (args : pyval) : log_record :=
  mkLog WARNING "invalid args object, replacing it with empty one {}" [FVal args].

Definition detected_job : log_record :=
  mkLog INFO "detected new job and started working on it ..." [].

Definition unknown_spider (spider_name : pyval) : log_record :=
  mkLog CRITICAL "unknwon spider {}" [FVal spider_name].

Definition invalid_payload (e : PyExc) : log_record :=
  mkLog CRITICAL "invalid task payload {}" [FStr (exc_str e)].

Definition queue_error (e : PyExc) : log_record :=
  mkLog CRITICAL "queue error {}" [FStr (exc_str e)].

Definition consumer_started (queue_name_suffix : string) : log_record :=
  mkLog INFO "a new consumer (thread) has been started for queue {}"
        [FStr queue_name_suffix].

Definition redis_error (e : PyExc) : log_record :=
  mkLog CRITICAL "[redis] {}" [FStr (exc_str e)].

Definition worker_exit (queue_name_suffix : string) (e : PyExc) : log_record :=
  mkLog CRITICAL QueueWorkerExit
        [FStr queue_name_suffix; FStr (exc_str e); FTraceback e].

(** ** Notions the statements use *)

(** The three keys of suffix [S] under the namespace [N]. *)
Definition names_of (N S : string) : string * string * string :=
  (N +:+ "." +:+ S +:+ ".BACKLOG",
   N +:+ "." +:+ S +:+ ".C.FINISHED.",
   N +:+ "." +:+ S +:+ ".C.RPM.").

(** What the three tables hold for suffix [S]. *)
Definition lookup3 (t : key_tables) (S : string)
  : option string * option string * option string :=
  (backlog_names t !! S, finished_counter_names t !! S, consumers_rpm_names t !! S).

(** [task.get("spider", None)] and [task.get("args", {})] on a dict. *)
Definition spider_field (d : pydict) : pyval := default PyNone (dict_get "spider" d).

Definition args_field (d : pydict) : pyval := default (PyDict []) (dict_get "args" d).

(** The world after a crawl that raised [e]: the call is on record, the
    plan has moved on, and the error is logged unless it is blank. *)
Definition after_failed_crawl (h : handle) (args : pydict) (e : PyExc)
  (cs : list (option PyExc)) (w : World) : World :=
  let w1 := set_crawl_plan cs (add_crawled (h, args) w) in
  if all_space (exc_str e) then w1 else add_log (scrapy_exception e) w1.

(** The value [r.incr(key)] replies with in world [w]. *)
Definition incremented (key : string) (w : World) : Z :=
  default 0 (counters w !! key) + 1.

(** The value of a counter; a missing key reads as 0. *)
Definition counter (key : string) (w : World) : Z :=
  default 0 (counters w !! key).

(** [n] turns of the loop, each ended normally, lead from [w] to [w']. *)
Fixpoint after_turns (json_loads : string -> PyExc + pyval) (self : Command)
  (queue_name_suffix : string) (n : nat) (w w' : World) : Prop :=
  match n with
  | O => w' = w
  | S n' =>
      exists w1,
        consumer_iteration json_loads self queue_name_suffix w = (Done tt, w1) /\
        after_turns json_loads self queue_name_suffix n' w1 w'
  end.

(** The payload is a job for a spider of the registry: its turn calls the
    executor. *)
Definition dispatches (json_loads : string -> PyExc + pyval) (self : Command)
  (payload : string) : bool :=
  match json_loads payload with
  | inr (PyDict d) =>
      match spiders_get (spiders self) (spider_field d) with
      | inr (Some h) => handle_truth h
      | _ => false
      end
  | _ => false
  end.

(** The payload is one the loop survives: it is rejected by [json.loads],
    or it is an object whose [spider] can be looked up. *)
Definition tolerated (json_loads : string -> PyExc + pyval) (self : Command)
  (payload : string) : bool :=
  match json_loads payload with
  | inl _ => true
  | inr (PyDict d) =>
      match spiders_get (spiders self) (spider_field d) with
      | inr _ => true
      | inl _ => false
      end
  | inr _ => false
  end.

(** The number of payloads of a backlog whose turn calls the executor. *)
Definition dispatched (json_loads : string -> PyExc + pyval) (self : Command)
  (payloads : list string) : nat :=
  length (List.filter (dispatches json_loads self) payloads).

(** ** Sample data *)

(** A project with one queue [a], served by two workers, under the
    namespace [Q], and one spider [foo]. *)
Definition sample_settings : Settings :=
  mkSettings (Some "Q") (Some [("a", 2)]).

Definition sample_spider : handle := mkHandle "foo" true.

Definition sample_command : Command :=
  boot sample_settings 4 {[ "foo" := sample_spider ]}.

(** A world with an empty server, no fault and no failing crawl. *)
Definition quiet_world : World := mkWorld ∅ ∅ ∅ [] [] [] [] [].

(** A healthy world whose server holds the given payloads in the backlog
    of queue [a] of [sample_command]. *)
Definition waiting (payloads : list string) : World :=
  mkWorld {[ "Q.a.BACKLOG" := payloads ]} ∅ ∅ [] [] [] [] [].

(** A healthy world with waiting payloads and a plan for the executor. *)
Definition waiting_with (payloads : list string) (plan : list (option PyExc))
  : World :=
  mkWorld {[ "Q.a.BACKLOG" := payloads ]} ∅ ∅ [] plan [] [] [].

Definition sample_payload : string :=
  Json.text "{'spider': 'foo', 'args': {'x': 1}}".

Definition sample_task : pydict :=
  [("spider", PyStr "foo"); ("args", PyDict [("x", PyInt 1)])].

Definition bad_args_payload : string :=
  Json.text "{'spider': 'foo', 'args': 'not-a-mapping'}".

Definition unknown_payload : string := Json.text "{'spider': 'nope'}".

Definition array_payload : string := Json.text "[1]".

(** Four payloads: a job for [foo], a job for an unknown spider, a text
    that is not JSON, and a job for [foo] whose [args] is a string. *)
Definition mixed_backlog : list string :=
  [sample_payload; unknown_payload; "not json"; bad_args_payload].

Definition blank_error : PyExc := mkExc "Exception" "  ".

Definition silent_error : PyExc := mkExc "Exception" "".

Definition boom : PyExc := mkExc "ValueError" "boom".

Definition connection_lost : PyExc := mkExc "ConnectionError" "Connection closed by server.".

(** A server with one job waiting whose connection opens, serves one
    turn (pop, two increments, expire) and then fails. *)
Definition failing_later : World :=
  mkWorld {[ "Q.a.BACKLOG" := [sample_payload] ]} ∅ ∅
          [None; None; None; None; None; Some connection_lost] [] [] [] [].

(** A server that refuses the connection. *)
Definition unreachable : World :=
  mkWorld ∅ ∅ ∅ [Some connection_lost] [] [] [] [].

(** ** Notions for the properties of the whole consumer *)

(** The commands a consumer of queue [sfx] sends: the pop on its backlog
    key, the increments by one of its two counters, the 60 second expiry
    of its RPM key. *)
Definition own_cmd (self : Command) (sfx : string) (c : redis_cmd) : Prop :=
  match c with
  | BLPOP k => queue_backlog_names self !! sfx = Some k
  | INCR k amount =>
      amount = 1 /\
      (queue_finished_counter_names self !! sfx = Some k \/
       queue_consumers_rpm_names self !! sfx = Some k)
  | EXPIRE k seconds =>
      seconds = 60 /\ queue_consumers_rpm_names self !! sfx = Some k
  end.

(** The payloads waiting under a key; a missing key is an empty list. *)
Definition queued (key : string) (w : World) : list string :=
  default [] (backlog w !! key).

(** What a consumer of queue [sfx] may turn world [w] into: it sends its
    own commands only; the log and the record of executor calls are only
    added to; a backlog only loses payloads from its head, and only the
    consumer's own; counters and expiries of other keys stay, and no
    counter goes down. *)
Record confined (self : Command) (sfx : string) (w w' : World) : Prop := {
  confined_issued :
    exists cmds, issued w' = (issued w ++ cmds)%list /\
                 Forall (own_cmd self sfx) cmds;
  confined_log : log w `prefix_of` log w';
  confined_crawled : crawled w `prefix_of` crawled w';
  confined_queue : forall k, queued k w' `suffix_of` queued k w;
  confined_backlog :
    forall k, queue_backlog_names self !! sfx ≠ Some k ->
              backlog w' !! k = backlog w !! k;
  confined_counters :
    forall k, queue_finished_counter_names self !! sfx ≠ Some k ->
              queue_consumers_rpm_names self !! sfx ≠ Some k ->
              counters w' !! k = counters w !! k;
  confined_rising : forall k, counter k w <= counter k w';
  confined_expiry :
    forall k, queue_consumers_rpm_names self !! sfx ≠ Some k ->
              expiry w' !! k = expiry w !! k
}.

(** Every run of [m] relates the world it starts in to the world it
    leaves, however it ends. *)
Definition preserves {A : Type} (R : World -> World -> Prop) (m : M A) : Prop :=
  forall w, R w (snd (m w)).

(** The last record of the log is a critical one. *)
Definition critical_last (w : World) : Prop :=
  exists r, last (log w) = Some r /\ log_level r = CRITICAL.

(** [m] ends the process only with status -1 and only right after a
    critical record, and it never runs out of fuel. *)
Definition graceful {A : Type} (m : M A) : Prop :=
  forall w,
    match m w with
    | (Exited c, w') => c = -1 /\ critical_last w'
    | (Unfinished, _) => False
    | _ => True
    end.

(** The books of a queue balance between [w] and [w']: the executor was
    called at most once for every payload that left the backlog, and the
    finished counter has grown by at most the number of those calls. *)
Definition balanced (key finished : string) (w w' : World) : Prop :=
  (length (crawled w') + length (queued key w')
   <= length (crawled w) + length (queued key w))%nat /\
  counter finished w' + Z.of_nat (length (crawled w))
  <= counter finished w + Z.of_nat (length (crawled w')).

(** The job a payload stands for: the spider of the registry and the
    arguments the executor is called with; [None] for a payload whose turn
    does not reach the executor. *)
Definition job_of (json_loads : string -> PyExc + pyval) (self : Command)
  (payload : string) : option (handle * pydict) :=
  match json_loads payload with
  | inr (PyDict d) =>
      match spiders_get (spiders self) (spider_field d) with
      | inr (Some h) =>
          if handle_truth h
          then Some (h, match args_field d with PyDict a => a | _ => [] end)
          else None
      | _ => None
      end
  | _ => None
  end.

(** [task.get("args", {})] after the check of lines 158-165. *)
Definition args_of (d : pydict) : pydict :=
  match args_field d with PyDict a => a | _ => [] end.

(** A project with two queues under the namespace [Q]. *)
Definition two_queues : Settings :=
  mkSettings (Some "Q") (Some [("a", 2); ("b", 1)]).

Definition list_spider_payload : string :=
  Json.text "{'spider': [1], 'args': 'x'}".

(** A connection that opens and serves the pop, and fails at the command
    after it. *)
Definition failing_later_at_increment : World :=
  mkWorld {[ "Q.a.BACKLOG" := [sample_payload] ]} ∅ ∅
          [None; None; Some connection_lost] [] [] [] [].

(** A connection that serves two commands and then fails. *)
Definition failing_at_expire : World :=
  mkWorld ∅ ∅ ∅ [None; None; Some connection_lost] [] [] [] [].

(** * Properties *)

(** ** Queue naming *)

Section Naming.

Variable N : string.

Lemma boot_step_same t S :
  lookup3 (boot_step N t S) S =
  (Some (names_of N S).1.1, Some (names_of N S).1.2, Some (names_of N S).2).
Proof. unfold lookup3, boot_step; simpl. by rewrite !lookup_insert_eq. Qed.

Lemma boot_step_other t S S' :
  S' ≠ S -> lookup3 (boot_step N t S') S = lookup3 t S.
Proof.
  intros Hne. unfold lookup3, boot_step; simpl.
  by rewrite !lookup_insert_ne.
Qed.

(** The loop of [boot] leaves, for every suffix it visits, the names built
    from that suffix; the other entries stay as they were. *)
Lemma boot_fold_lookup l : forall t S,
  lookup3 (fold_left (boot_step N) l t) S =
  if decide (S ∈ l)
  then (Some (names_of N S).1.1, Some (names_of N S).1.2, Some (names_of N S).2)
  else lookup3 t S.
Proof.
  induction l as [|a l IH]; intros t S; cbn [fold_left].
  - rewrite decide_False; [done | apply not_elem_of_nil].
  - rewrite IH. destruct (decide (a = S)) as [->|Hne].
    + rewrite boot_step_same, (decide_True (P := S ∈ S :: l)); [|left].
      by destruct (decide (S ∈ l)).
    + rewrite (boot_step_other _ _ _ Hne).
      destruct (decide (S ∈ l)) as [Hl|Hl].
      * rewrite decide_True; [done | by right].
      * rewrite decide_False; [done |].
        intros [?|?]%elem_of_cons; congruence.
Qed.

End Naming.

(** C5: for every namespace and every configured suffix [S], [boot] stores
    under [S] exactly the keys [N.S.BACKLOG], [N.S.C.FINISHED.] and
    [N.S.C.RPM.], where [N] is the configured queue name (or its default
    [SCRAPY_X_QUEUE]). *)
Theorem boot_key_names (settings : Settings) (cpu_count : Z)
  (discovered : gmap string handle) (S : string) :
  let cmd := boot settings cpu_count discovered in
  In S (map fst (queue_workers_count cmd)) ->
  queue_name cmd = default "SCRAPY_X_QUEUE" (X_QUEUE_NAME settings) /\
  queue_backlog_names cmd !! S = Some (queue_name cmd +:+ "." +:+ S +:+ ".BACKLOG") /\
  queue_finished_counter_names cmd !! S
    = Some (queue_name cmd +:+ "." +:+ S +:+ ".C.FINISHED.") /\
  queue_consumers_rpm_names cmd !! S
    = Some (queue_name cmd +:+ "." +:+ S +:+ ".C.RPM.").
Proof.
  intros cmd Hin. subst cmd. unfold boot in *. simpl in *.
  set (N := default "SCRAPY_X_QUEUE" (X_QUEUE_NAME settings)) in *.
  set (l := map fst _) in *.
  pose proof (boot_fold_lookup N l (mkTables ∅ ∅ ∅) S) as H.
  rewrite decide_True in H by (by apply list_elem_of_In).
  unfold lookup3, names_of in H. simpl in H.
  injection H as H1 H2 H3. auto.
Qed.

Lemma boot_key_names_witness :
  let cmd := boot sample_settings 4 ∅ in
  queue_name cmd = "Q" /\
  queue_backlog_names cmd !! "a" = Some "Q.a.BACKLOG" /\
  queue_finished_counter_names cmd !! "a" = Some "Q.a.C.FINISHED." /\
  queue_consumers_rpm_names cmd !! "a" = Some "Q.a.C.RPM.".
Proof.
  apply (boot_key_names sample_settings 4 ∅ "a").
  simpl. left. reflexivity.
Defined.

(** ** White space *)

Lemma rstrip_keeps c s : isspace c = false -> str_truth (rstrip (String c s)) = true.
Proof. intros Hc. cbn [rstrip]. rewrite Hc. by destruct (rstrip s). Qed.

(** [str(e).strip()] is false exactly when [str(e)] is empty or made of
    white space only. *)
Lemma str_truth_strip s : str_truth (strip s) = negb (all_space s).
Proof.
  unfold strip. induction s as [|c s IH]; [done|].
  cbn [lstrip all_space]. destruct (isspace c) eqn:Hc; [exact IH|].
  by rewrite rstrip_keeps.
Qed.

(** ** The monad *)

Ltac step_m :=
  unfold bind, ret, raise, lift, try_except, os__exit, logger, getitem; simpl.

Lemma bind_Done {A B} (m : M A) (k : A -> M B) w a w' :
  m w = (Done a, w') -> bind m k w = k a w'.
Proof. intros H. unfold bind. by rewrite H. Qed.

Lemma bind_Exited {A B} (m : M A) (k : A -> M B) w c w' :
  m w = (Exited c, w') -> bind m k w = (Exited c, w').
Proof. intros H. unfold bind. by rewrite H. Qed.

Lemma bind_Raised {A B} (m : M A) (k : A -> M B) w e w' :
  m w = (Raised e, w') -> bind m k w = (Raised e, w').
Proof. intros H. unfold bind. by rewrite H. Qed.

(** ** The executor call *)

Lemma run_crawl_raised h args e cs w :
  crawl_plan w = Some e :: cs ->
  run_crawl h args w = (Done tt, after_failed_crawl h args e cs w).
Proof.
  intros Hp. unfold run_crawl, try_except, crawl, after_failed_crawl.
  simpl. rewrite Hp. rewrite str_truth_strip.
  by destruct (all_space (exc_str e)).
Qed.

Lemma run_crawl_returned h args cs w :
  crawl_plan w = None :: cs ->
  run_crawl h args w = (Done tt, set_crawl_plan cs (add_crawled (h, args) w)).
Proof.
  intros Hp. unfold run_crawl, try_except, crawl. simpl. by rewrite Hp.
Qed.

Lemma run_crawl_unplanned h args w :
  crawl_plan w = [] ->
  run_crawl h args w = (Done tt, add_crawled (h, args) w).
Proof.
  intros Hp. unfold run_crawl, try_except, crawl. simpl. by rewrite Hp.
Qed.

(** The executor call always comes back, whatever the executor did, and
    touches nothing of the server. *)
Lemma run_crawl_total h args w :
  exists w', run_crawl h args w = (Done tt, w') /\
    crawled w' = (crawled w ++ [(h, args)])%list /\
    backlog w' = backlog w /\ counters w' = counters w /\
    expiry w' = expiry w /\ faults w' = faults w /\ issued w' = issued w.
Proof.
  destruct (crawl_plan w) as [|[e|] cs] eqn:Hp.
  - rewrite (run_crawl_unplanned _ _ _ Hp). eauto 10.
  - rewrite (run_crawl_raised _ _ _ _ _ Hp). eexists; split; [done|].
    unfold after_failed_crawl. by destruct (all_space (exc_str e)).
  - rewrite (run_crawl_returned _ _ _ _ Hp). eauto 10.
Qed.

(** ** The counters *)

Section Stats.

Variable self : Command.
Variables queue_name_suffix finished rpm : string.

Hypothesis finished_name :
  queue_finished_counter_names self !! queue_name_suffix = Some finished.
Hypothesis rpm_name :
  queue_consumers_rpm_names self !! queue_name_suffix = Some rpm.
Hypothesis distinct_names : finished ≠ rpm.

(** What a completed [record_stats] has done, whatever the fault plan
    was: both counters went up by one, and the RPM key got its 60 seconds
    exactly when its new value is 1. *)
Lemma record_stats_done w w' :
  record_stats self queue_name_suffix w = (Done tt, w') ->
  let n := incremented rpm w in
  counters w' !! finished = Some (incremented finished w) /\
  counters w' !! rpm = Some n /\
  issued w' = (issued w ++ [INCR finished 1; INCR rpm 1]
                 ++ (if n =? 1 then [EXPIRE rpm 60] else []))%list /\
  expiry w' = (if n =? 1 then <[rpm := 60]> (expiry w) else expiry w) /\
  backlog w' = backlog w /\ log w' = log w /\ crawled w' = crawled w /\
  crawl_plan w' = crawl_plan w.
Proof.
  unfold record_stats, incremented, getitem.
  rewrite finished_name, rpm_name.
  unfold bind, ret, incr, expire, next_fault, bind; simpl.
  destruct (faults w) as [|[e1|] fs1] eqn:Hfs; simpl; rewrite ?Hfs; simpl;
    try discriminate;
    [| destruct fs1 as [|[e2|] fs2]; simpl; try discriminate ];
    rewrite lookup_insert_ne by done;
    (destruct (default 0 (counters w !! rpm) + 1 =? 1) eqn:Hn; simpl;
     [ try (destruct fs2 as [|[e3|] fs3]; simpl; try discriminate);
       rewrite ?Hfs; simpl; rewrite lookup_insert_eq |]);
    intros [= <-]; simpl;
    rewrite lookup_insert_eq, lookup_insert_ne, lookup_insert_eq by done;
    by rewrite <- !app_assoc.
Qed.

End Stats.

Lemma record_stats_healthy self sfx finished rpm w :
  queue_finished_counter_names self !! sfx = Some finished ->
  queue_consumers_rpm_names self !! sfx = Some rpm ->
  faults w = [] ->
  exists w', record_stats self sfx w = (Done tt, w') /\ faults w' = [].
Proof.
  intros Hf Hr Hfs. unfold record_stats, getitem. rewrite Hf, Hr.
  unfold bind, ret, incr, expire, next_fault, bind; simpl.
  rewrite Hfs; simpl. rewrite Hfs; simpl.
  destruct (_ =? 1); simpl; [|eauto].
  rewrite Hfs; simpl. rewrite lookup_insert_eq. eauto.
Qed.

(** The recording step by itself (lines 179-190): when it completes it
    has incremented the RPM counter by one, and it has set the 60 second
    expiry on the RPM key if and only if the value after the increment is
    1; otherwise no [EXPIRE] is sent and the expiry table is as before
    (the increment of the finished counter never touches it). *)
Theorem rpm_expiry_on_first_increment (self : Command)
  (queue_name_suffix finished rpm : string) (w w' : World) :
  queue_finished_counter_names self !! queue_name_suffix = Some finished ->
  queue_consumers_rpm_names self !! queue_name_suffix = Some rpm ->
  finished ≠ rpm ->
  record_stats self queue_name_suffix w = (Done tt, w') ->
  let n := incremented rpm w in
  counters w' !! rpm = Some n /\
  (n = 1 ->
     issued w' = (issued w ++ [INCR finished 1; INCR rpm 1; EXPIRE rpm 60])%list /\
     expiry w' = <[rpm := 60]> (expiry w)) /\
  (n ≠ 1 ->
     issued w' = (issued w ++ [INCR finished 1; INCR rpm 1])%list /\
     expiry w' = expiry w).
Proof.
  intros Hf Hr Hne Hdone n.
  destruct (record_stats_done self _ _ _ Hf Hr Hne w w' Hdone)
    as (_ & Hrpm & Hiss & Hexp & _).
  fold n in Hrpm, Hiss, Hexp. split; [done|]. split; intros Hn.
  - apply Z.eqb_eq in Hn. by rewrite Hn in Hiss, Hexp.
  - apply Z.eqb_neq in Hn. by rewrite Hn in Hiss, Hexp.
Qed.

Lemma rpm_expiry_on_first_increment_witness :
  let w' := snd (record_stats sample_command "a" quiet_world) in
  counters w' !! "Q.a.C.RPM." = Some 1 /\
  (1 = 1 ->
     issued w' = [INCR "Q.a.C.FINISHED." 1; INCR "Q.a.C.RPM." 1;
                  EXPIRE "Q.a.C.RPM." 60] /\
     expiry w' = <[ "Q.a.C.RPM." := 60 ]> ∅) /\
  (1 ≠ 1 ->
     issued w' = [INCR "Q.a.C.FINISHED." 1; INCR "Q.a.C.RPM." 1] /\
     expiry w' = ∅).
Proof.
  apply (rpm_expiry_on_first_increment sample_command "a"
           "Q.a.C.FINISHED." "Q.a.C.RPM." quiet_world).
  - reflexivity.
  - reflexivity.
  - discriminate.
  - vm_compute. reflexivity.
Defined.

(** A second recording within the minute: the RPM counter reads 2, no
    [EXPIRE] is sent and the expiry stays as the first one set it. *)
Example rpm_second_increment :
  let w1 := snd (record_stats sample_command "a" quiet_world) in
  let w2 := snd (record_stats sample_command "a" w1) in
  counters w2 !! "Q.a.C.RPM." = Some 2 /\
  issued w2 = (issued w1 ++ [INCR "Q.a.C.FINISHED." 1; INCR "Q.a.C.RPM." 1])%list /\
  expiry w2 = expiry w1.
Proof. vm_compute. repeat split. Qed.

(** ** Decoding *)

(** [read_task] on a dict, in closed form. *)
Lemma read_task_dict self d w :
  read_task self (PyDict d) w =
  match spiders_get (spiders self) (spider_field d) with
  | inl e => (Raised e, w)
  | inr spider =>
      match args_field d with
      | PyDict a => (Done (spider_field d, spider, a), w)
      | v => (Done (spider_field d, spider, []), add_log (invalid_args v) w)
      end
  end.
Proof.
  unfold read_task, task_get, spider_field, args_field. step_m.
  destruct (spiders_get _ _) as [e|spider]; simpl; [done|].
  by destruct (default (PyDict []) (dict_get "args" d)).
Qed.

(** A task that is not a dict has no [get]. *)
Lemma read_task_not_dict self task w :
  isinstance_dict task = false ->
  read_task self task w = (Raised (AttributeError task "get"), w).
Proof. by destruct task. Qed.

Lemma load_task_ok json_loads payload task w :
  json_loads payload = inr task ->
  load_task json_loads payload w = (Done (Some task), w).
Proof. intros H. unfold load_task. step_m. by rewrite H. Qed.

Lemma load_task_error json_loads payload e w :
  json_loads payload = inl e ->
  load_task json_loads payload w = (Done None, add_log (invalid_payload e) w).
Proof. intros H. unfold load_task. step_m. by rewrite H. Qed.

(** One turn of the loop once the payload is out of the queue and
    decoded: the job is announced, read and finished. *)
Lemma consumer_iteration_decoded json_loads self sfx payload task w w1 :
  pop_payload self sfx w = (Done payload, w1) ->
  json_loads payload = inr task ->
  consumer_iteration json_loads self sfx w =
  (let! job := read_task self task in
   finish_job self sfx job.1.1 job.1.2 job.2) (add_log detected_job w1).
Proof.
  intros Hpop Hjson. unfold consumer_iteration.
  rewrite (bind_Done _ _ _ _ _ Hpop).
  rewrite (bind_Done _ _ _ _ _ (load_task_ok _ _ _ _ Hjson)).
  unfold bind at 1. unfold logger at 1.
  unfold bind. destruct (read_task _ _ _) as [[[[n s] a]| | | |] w']; done.
Qed.

(** C9: a payload that decodes to an object with a string [spider] and a
    mapping [args] yields that spider name and those arguments unchanged,
    without any log record; when [args] is absent the arguments are the
    empty mapping. *)
Theorem well_formed_payload_decodes (json_loads : string -> PyExc + pyval)
  (self : Command) (payload : string) (d : pydict) (name : string)
  (args : pydict) (w : World) :
  json_loads payload = inr (PyDict d) ->
  dict_get "spider" d = Some (PyStr name) ->
  dict_get "args" d = Some (PyDict args) \/
    (dict_get "args" d = None /\ args = []) ->
  load_task json_loads payload w = (Done (Some (PyDict d)), w) /\
  read_task self (PyDict d) w = (Done (PyStr name, spiders self !! name, args), w).
Proof.
  intros Hjson Hs Ha. split; [by apply load_task_ok|].
  rewrite read_task_dict. unfold spider_field, args_field. rewrite Hs. simpl.
  destruct Ha as [->|[-> ->]]; done.
Qed.

Lemma well_formed_payload_decodes_witness :
  json_loads_ascii sample_payload = inr (PyDict sample_task) /\
  load_task json_loads_ascii sample_payload quiet_world
    = (Done (Some (PyDict sample_task)), quiet_world) /\
  read_task sample_command (PyDict sample_task) quiet_world
    = (Done (PyStr "foo", Some sample_spider, [("x", PyInt 1)]), quiet_world).
Proof.
  split; [reflexivity|].
  apply (well_formed_payload_decodes json_loads_ascii sample_command
           sample_payload sample_task "foo" [("x", PyInt 1)] quiet_world).
  - reflexivity.
  - reflexivity.
  - left. reflexivity.
Defined.

(** ** The blocking pop *)

(** [dequeue] returns, raises or sleeps; it never ends the process by
    itself. *)
Lemma dequeue_outcome self sfx w :
  (exists key x w', dequeue self sfx w = (Done (key, x), w') /\
     queue_backlog_names self !! sfx = Some key /\
     issued w' = (issued w ++ [BLPOP key])%list /\
     counters w' = counters w /\ expiry w' = expiry w /\ log w' = log w /\
     crawled w' = crawled w /\ crawl_plan w' = crawl_plan w) \/
  (exists e w', dequeue self sfx w = (Raised e, w') /\
     issued w' = issued w /\ backlog w' = backlog w /\
     counters w' = counters w /\ expiry w' = expiry w /\ log w' = log w /\
     crawled w' = crawled w) \/
  (exists w', dequeue self sfx w = (Blocked, w')).
Proof.
  unfold dequeue, getitem.
  destruct (queue_backlog_names self !! sfx) as [key|] eqn:Hkey.
  - unfold bind, ret, blpop, bind, next_fault; simpl.
    destruct (faults w) as [|[e|] fs]; simpl.
    + destruct (backlog w !! key) as [[|x xs]|]; eauto 15.
    + right; left. eauto 15.
    + destruct (backlog w !! key) as [[|x xs]|]; eauto 15.
  - right; left. unfold bind, raise. eauto 15.
Qed.

Lemma pop_payload_raised self sfx w e w' :
  dequeue self sfx w = (Raised e, w') ->
  pop_payload self sfx w = (Exited (-1), add_log (queue_error e) w').
Proof.
  intros H. unfold pop_payload, bind, try_except. rewrite H. done.
Qed.

Lemma pop_payload_done self sfx w p w1 :
  pop_payload self sfx w = (Done p, w1) ->
  exists key, dequeue self sfx w = (Done (key, p), w1).
Proof.
  unfold pop_payload, bind, try_except.
  destruct (dequeue self sfx w) as [[[k x]|e|c| |] w'] eqn:Hd; simpl;
    try discriminate.
  intros [= <- <-]. eauto.
Qed.

(** A payload leaves the queue through one [BLPOP] and nothing else
    happens. *)
Lemma pop_payload_effect self sfx w p w1 :
  pop_payload self sfx w = (Done p, w1) ->
  exists key, queue_backlog_names self !! sfx = Some key /\
    issued w1 = (issued w ++ [BLPOP key])%list /\
    counters w1 = counters w /\ expiry w1 = expiry w /\ log w1 = log w /\
    crawled w1 = crawled w /\ crawl_plan w1 = crawl_plan w.
Proof.
  intros [key Hd]%pop_payload_done.
  destruct (dequeue_outcome self sfx w)
    as [(k & x & w' & H & ?)|[(e & w' & H & _)|(w' & H)]];
    rewrite H in Hd; try discriminate.
  injection Hd as -> -> ->. eauto.
Qed.

(** The pop on a healthy connection with a waiting payload. *)
Lemma pop_payload_healthy self sfx key p ps w :
  queue_backlog_names self !! sfx = Some key ->
  backlog w !! key = Some (p :: ps) ->
  faults w = [] ->
  pop_payload self sfx w
    = (Done p, set_backlog (insert key ps) (add_issued (BLPOP key) w)).
Proof.
  intros Hk Hb Hf. unfold pop_payload, dequeue, getitem. rewrite Hk.
  unfold try_except, bind, ret, blpop, bind, next_fault; simpl.
  by rewrite Hf, Hb.
Qed.

(** The pop on a healthy connection with an empty queue sleeps. *)
Lemma pop_payload_empty self sfx key w :
  queue_backlog_names self !! sfx = Some key ->
  backlog w !! key = Some [] ->
  faults w = [] ->
  pop_payload self sfx w = (Blocked, add_issued (BLPOP key) w).
Proof.
  intros Hk Hb Hf. unfold pop_payload, dequeue, getitem. rewrite Hk.
  unfold try_except, bind, ret, blpop, bind, next_fault; simpl.
  by rewrite Hf, Hb.
Qed.

(** The check of lines 158-165 when it is reached: for an object whose
    [args] entry is present but not a mapping and whose [spider] entry the
    registry can look up, a warning with the offending value is logged,
    the arguments become the empty mapping, and the turn goes on to the
    dispatch step with them. *)
Theorem non_mapping_args_replaced (json_loads : string -> PyExc + pyval)
  (self : Command) (queue_name_suffix payload : string) (d : pydict)
  (bad : pyval) (spider : option handle) (w w1 : World) :
  pop_payload self queue_name_suffix w = (Done payload, w1) ->
  json_loads payload = inr (PyDict d) ->
  dict_get "args" d = Some bad ->
  isinstance_dict bad = false ->
  spiders_get (spiders self) (spider_field d) = inr spider ->
  let w2 := add_log detected_job w1 in
  read_task self (PyDict d) w2
    = (Done (spider_field d, spider, []), add_log (invalid_args bad) w2) /\
  consumer_iteration json_loads self queue_name_suffix w
    = finish_job self queue_name_suffix (spider_field d) spider []
                 (add_log (invalid_args bad) w2).
Proof.
  intros Hpop Hjson Hargs Hbad Hsp w2.
  assert (Hread : read_task self (PyDict d) w2
            = (Done (spider_field d, spider, []), add_log (invalid_args bad) w2)).
  { rewrite read_task_dict, Hsp. unfold args_field. rewrite Hargs. simpl.
    by destruct bad. }
  split; [done|].
  rewrite (consumer_iteration_decoded _ _ _ _ _ _ _ Hpop Hjson).
  fold w2. by rewrite (bind_Done _ _ _ _ _ Hread).
Qed.

Lemma non_mapping_args_replaced_witness :
  let w := waiting [bad_args_payload] in
  let w1 := snd (pop_payload sample_command "a" w) in
  let w2 := add_log detected_job w1 in
  (read_task sample_command
     (PyDict [("spider", PyStr "foo"); ("args", PyStr "not-a-mapping")]) w2
   = (Done (PyStr "foo", Some sample_spider, []),
      add_log (invalid_args (PyStr "not-a-mapping")) w2) /\
   consumer_iteration json_loads_ascii sample_command "a" w
   = finish_job sample_command "a" (PyStr "foo") (Some sample_spider) []
       (add_log (invalid_args (PyStr "not-a-mapping")) w2)) /\
  crawled (snd (consumer_iteration json_loads_ascii sample_command "a" w))
   = [(sample_spider, [])].
Proof.
  split; [|vm_compute; reflexivity].
  apply (non_mapping_args_replaced json_loads_ascii sample_command "a"
           bad_args_payload
           [("spider", PyStr "foo"); ("args", PyStr "not-a-mapping")]
           (PyStr "not-a-mapping") (Some sample_spider)
           (waiting [bad_args_payload])).
  - vm_compute. reflexivity.
  - reflexivity.
  - reflexivity.
  - reflexivity.
  - reflexivity.
Defined.

(** ** Dispatch *)

Lemma finish_job_unknown self sfx name spider args w :
  not_spider spider = true ->
  finish_job self sfx name spider args w
    = (Done tt, add_log (unknown_spider name) w).
Proof.
  unfold finish_job, not_spider. destruct spider as [h|]; [|done].
  by intros ->.
Qed.

Lemma finish_job_known self sfx name h args w :
  handle_truth h = true ->
  finish_job self sfx name (Some h) args w
    = (run_crawl h args ;; record_stats self sfx) w.
Proof. intros Ht. unfold finish_job. by rewrite Ht. Qed.

(** [read_task] only ever adds to the log. *)
Lemma read_task_effect self task w r w' :
  read_task self task w = (r, w') ->
  backlog w' = backlog w /\ counters w' = counters w /\
  expiry w' = expiry w /\ faults w' = faults w /\
  crawl_plan w' = crawl_plan w /\ crawled w' = crawled w /\
  issued w' = issued w.
Proof.
  destruct task; try (intros [= <- <-]; done).
  rewrite read_task_dict.
  destruct (spiders_get _ _); [intros [= <- <-]; done|].
  destruct (args_field _); intros [= <- <-]; done.
Qed.

Lemma loop_turn json_loads self sfx fuel w w' :
  consumer_iteration json_loads self sfx w = (Done tt, w') ->
  consumer_loop json_loads self sfx (S fuel) w
    = consumer_loop json_loads self sfx fuel w'.
Proof. intros H. cbn [consumer_loop]. by rewrite (bind_Done _ _ _ _ _ H). Qed.

(** C7: when the spider named by a decoded job is not in the registry, the
    turn logs [unknwon spider] at critical level and ends normally: the
    executor is not called, no counter is touched, no command other than
    the pop reaches the server, and the loop goes on with its next turn. *)
Theorem unknown_spider_is_skipped (json_loads : string -> PyExc + pyval)
  (self : Command) (queue_name_suffix payload : string) (d : pydict)
  (w w1 : World) (fuel : nat) :
  pop_payload self queue_name_suffix w = (Done payload, w1) ->
  json_loads payload = inr (PyDict d) ->
  spiders_get (spiders self) (spider_field d) = inr None ->
  exists w',
    consumer_iteration json_loads self queue_name_suffix w = (Done tt, w') /\
    last (log w') = Some (unknown_spider (spider_field d)) /\
    crawled w' = crawled w /\
    counters w' = counters w /\ expiry w' = expiry w /\
    issued w' = issued w1 /\
    consumer_loop json_loads self queue_name_suffix (S fuel) w
      = consumer_loop json_loads self queue_name_suffix fuel w'.
Proof.
  intros Hpop Hjson Hsp.
  pose proof (consumer_iteration_decoded _ _ _ _ _ _ _ Hpop Hjson) as Hit.
  destruct (pop_payload_effect _ _ _ _ _ Hpop)
    as (key & _ & _ & Hc & He & _ & Hcr & _).
  assert (exists a w2, read_task self (PyDict d) (add_log detected_job w1)
                       = (Done (spider_field d, None, a), w2))
    as (a & w2 & Hread).
  { rewrite read_task_dict, Hsp. destruct (args_field d); eauto. }
  pose proof (read_task_effect _ _ _ _ _ Hread)
    as (_ & Hc2 & He2 & _ & _ & Hcr2 & Hi2).
  rewrite (bind_Done _ _ _ _ _ Hread) in Hit. cbn [fst snd] in Hit.
  rewrite finish_job_unknown in Hit by done.
  exists (add_log (unknown_spider (spider_field d)) w2).
  split; [exact Hit|]. simpl in *.
  rewrite last_snoc. repeat split; try congruence.
  by apply loop_turn.
Qed.

Lemma unknown_spider_is_skipped_witness :
  exists w',
    consumer_iteration json_loads_ascii sample_command "a"
      (waiting [unknown_payload]) = (Done tt, w') /\
    last (log w') = Some (unknown_spider (PyStr "nope")) /\
    crawled w' = [] /\
    counters w' = ∅ /\ expiry w' = ∅ /\
    issued w' = [BLPOP "Q.a.BACKLOG"] /\
    consumer_loop json_loads_ascii sample_command "a" 1 (waiting [unknown_payload])
      = consumer_loop json_loads_ascii sample_command "a" 0 w'.
Proof.
  apply (unknown_spider_is_skipped json_loads_ascii sample_command "a"
           unknown_payload [("spider", PyStr "nope")]
           (waiting [unknown_payload])
           (snd (pop_payload sample_command "a" (waiting [unknown_payload])))
           0%nat).
  - vm_compute. reflexivity.
  - reflexivity.
  - reflexivity.
Defined.

(** C10: an executor error whose [str] is empty or white space only is
    swallowed without any log record, and the turn still goes on to the
    recording step, which on a healthy connection increments both the
    finished counter and the RPM counter. *)
Theorem blank_executor_error_is_silent (self : Command)
  (queue_name_suffix : string) (spider_name : pyval) (h : handle)
  (args : pydict) (e : PyExc) (cs : list (option PyExc)) (w : World) :
  handle_truth h = true ->
  all_space (exc_str e) = true ->
  crawl_plan w = Some e :: cs ->
  let w1 := set_crawl_plan cs (add_crawled (h, args) w) in
  run_crawl h args w = (Done tt, w1) /\
  log w1 = log w /\
  finish_job self queue_name_suffix spider_name (Some h) args w
    = record_stats self queue_name_suffix w1 /\
  forall finished rpm,
    queue_finished_counter_names self !! queue_name_suffix = Some finished ->
    queue_consumers_rpm_names self !! queue_name_suffix = Some rpm ->
    finished ≠ rpm ->
    faults w = [] ->
    exists w',
      finish_job self queue_name_suffix spider_name (Some h) args w
        = (Done tt, w') /\
      log w' = log w /\
      counters w' !! finished = Some (incremented finished w) /\
      counters w' !! rpm = Some (incremented rpm w).
Proof.
  intros Ht Hblank Hplan w1.
  assert (Hrun : run_crawl h args w = (Done tt, w1)).
  { rewrite (run_crawl_raised _ _ _ _ _ Hplan). unfold after_failed_crawl.
    by rewrite Hblank. }
  assert (Hfin : finish_job self queue_name_suffix spider_name (Some h) args w
                 = record_stats self queue_name_suffix w1).
  { rewrite finish_job_known by done. by rewrite (bind_Done _ _ _ _ _ Hrun). }
  repeat split; try done.
  intros finished rpm Hf Hr Hne Hfs.
  destruct (record_stats_healthy self queue_name_suffix finished rpm w1 Hf Hr Hfs)
    as (w' & Hrec & _).
  destruct (record_stats_done self _ _ _ Hf Hr Hne w1 w' Hrec)
    as (Hc1 & Hc2 & _ & _ & _ & Hlog & _).
  exists w'. rewrite Hfin. repeat split; done.
Qed.

Lemma blank_executor_error_is_silent_witness :
  let w := waiting_with [] [Some blank_error] in
  let w1 := set_crawl_plan [] (add_crawled (sample_spider, []) w) in
  run_crawl sample_spider [] w = (Done tt, w1) /\
  log w1 = [] /\
  finish_job sample_command "a" (PyStr "foo") (Some sample_spider) [] w
    = record_stats sample_command "a" w1 /\
  exists w',
    finish_job sample_command "a" (PyStr "foo") (Some sample_spider) [] w
      = (Done tt, w') /\
    log w' = [] /\
    counters w' !! "Q.a.C.FINISHED." = Some 1 /\
    counters w' !! "Q.a.C.RPM." = Some 1.
Proof.
  destruct (blank_executor_error_is_silent sample_command "a" (PyStr "foo")
              sample_spider [] blank_error []
              (waiting_with [] [Some blank_error])
              eq_refl eq_refl eq_refl) as (H1 & H2 & H3 & H4).
  split; [exact H1|]. split; [exact H2|]. split; [exact H3|].
  apply (H4 "Q.a.C.FINISHED." "Q.a.C.RPM.");
    [reflexivity | reflexivity | discriminate | reflexivity].
Defined.

(** The same on a whole turn: the job is crawled, nothing above [INFO] is
    logged, and both counters read 1. *)
Example blank_error_turn :
  let r := consumer_iteration json_loads_ascii sample_command "a"
             (waiting_with [sample_payload] [Some blank_error]) in
  fst r = Done tt /\
  map log_level (log (snd r)) = [INFO] /\
  crawled (snd r) = [(sample_spider, [("x", PyInt 1)])] /\
  counters (snd r) !! "Q.a.C.FINISHED." = Some 1 /\
  counters (snd r) !! "Q.a.C.RPM." = Some 1.
Proof. vm_compute. repeat split. Qed.

(** C8 (amended): an error raised by the executor is caught; it is logged
    at critical level exactly when its [str] has a character that is not
    white space; the turn goes on to the recording step, so the process
    does not end; the executor has been called once for the job and the
    backlog is not written to, so nothing is retried or requeued. *)
Theorem executor_error_is_contained (self : Command)
  (queue_name_suffix : string) (spider_name : pyval) (h : handle)
  (args : pydict) (e : PyExc) (cs : list (option PyExc)) (w : World) :
  handle_truth h = true ->
  crawl_plan w = Some e :: cs ->
  let w1 := after_failed_crawl h args e cs w in
  run_crawl h args w = (Done tt, w1) /\
  log w1 = (if all_space (exc_str e) then log w
            else log w ++ [scrapy_exception e])%list /\
  crawled w1 = (crawled w ++ [(h, args)])%list /\
  backlog w1 = backlog w /\ issued w1 = issued w /\
  finish_job self queue_name_suffix spider_name (Some h) args w
    = record_stats self queue_name_suffix w1.
Proof.
  intros Ht Hplan w1.
  pose proof (run_crawl_raised h args e cs w Hplan) as Hrun. fold w1 in Hrun.
  split; [exact Hrun|].
  assert (Hfin : finish_job self queue_name_suffix spider_name (Some h) args w
                 = record_stats self queue_name_suffix w1).
  { rewrite finish_job_known by done. by rewrite (bind_Done _ _ _ _ _ Hrun). }
  subst w1. unfold after_failed_crawl in *.
  destruct (all_space (exc_str e)); done.
Qed.

Lemma executor_error_is_contained_witness :
  let w := waiting_with [] [Some boom] in
  let w1 := after_failed_crawl sample_spider [] boom [] w in
  run_crawl sample_spider [] w = (Done tt, w1) /\
  log w1 = [scrapy_exception boom] /\
  crawled w1 = [(sample_spider, [])] /\
  backlog w1 = backlog w /\ issued w1 = [] /\
  finish_job sample_command "a" (PyStr "foo") (Some sample_spider) [] w
    = record_stats sample_command "a" w1.
Proof.
  apply (executor_error_is_contained sample_command "a" (PyStr "foo")
           sample_spider [] boom [] (waiting_with [] [Some boom])).
  - reflexivity.
  - reflexivity.
Defined.

(** C8 as stated fails: the executor raises [Exception()] on a
    well-formed job for a known spider: the turn ends normally and the log holds no critical record,
    only the [INFO] one that announced the job. *)
Lemma executor_error_not_logged :
  let r := consumer_iteration json_loads_ascii sample_command "a"
             (waiting_with [sample_payload] [Some silent_error]) in
  fst r = Done tt /\
  crawled (snd r) = [(sample_spider, [("x", PyInt 1)])] /\
  crawl_plan (snd r) = [] /\
  log (snd r) = [detected_job] /\
  ~ In CRITICAL (map log_level (log (snd r))).
Proof.
  vm_compute. repeat split. intros [H|[]]. discriminate H.
Qed.

(** ** The loop *)

Section Loop.

Variable json_loads : string -> PyExc + pyval.
Variable self : Command.
Variable queue_name_suffix : string.

Local Abbreviation iteration :=
  (consumer_iteration json_loads self queue_name_suffix).
Local Abbreviation loop := (consumer_loop json_loads self queue_name_suffix).

Lemma loop_after_turns n : forall m w w',
  after_turns json_loads self queue_name_suffix n w w' -> loop (n + m) w = loop m w'.
Proof.
  induction n as [|n IH]; intros m w w'; simpl.
  - by intros ->.
  - intros (w1 & Hit & Hrest). rewrite (bind_Done _ _ _ _ _ Hit). by apply IH.
Qed.

Lemma loop_exits fuel w c w' :
  iteration w = (Exited c, w') -> loop (S fuel) w = (Exited c, w').
Proof. intros H. cbn [consumer_loop]. by rewrite (bind_Exited _ _ _ _ _ H). Qed.

Lemma loop_raises fuel w e w' :
  iteration w = (Raised e, w') -> loop (S fuel) w = (Raised e, w').
Proof. intros H. cbn [consumer_loop]. by rewrite (bind_Raised _ _ _ _ _ H). Qed.

Lemma iteration_queue_error w e w' :
  dequeue self queue_name_suffix w = (Raised e, w') ->
  iteration w = (Exited (-1), add_log (queue_error e) w').
Proof.
  intros H. unfold consumer_iteration.
  by rewrite (bind_Exited _ _ _ _ _ (pop_payload_raised _ _ _ _ _ H)).
Qed.

(** The consumer once its connection is open: the loop under the outer
    handler. *)
Lemma consumer_connected fuel w w0 :
  redis_Redis (add_log (consumer_started queue_name_suffix) w) = (Done tt, w0) ->
  consumer json_loads self queue_name_suffix fuel w =
  match loop fuel w0 with
  | (Raised e, w') => (Exited (-1), add_log (worker_exit queue_name_suffix e) w')
  | r => r
  end.
Proof.
  intros Hc. unfold consumer. unfold bind at 1. unfold logger at 1.
  fold (consumer_started queue_name_suffix). unfold try_except at 1.
  unfold bind at 1. unfold try_except at 1. rewrite Hc.
  destruct (loop fuel w0) as [[[]|e|c| |] w']; done.
Qed.

Lemma consumer_connect_failed fuel w e fs :
  faults w = Some e :: fs ->
  consumer json_loads self queue_name_suffix fuel w =
  (Exited (-1),
   add_log (redis_error e) (set_faults fs (add_log (consumer_started queue_name_suffix) w))).
Proof.
  intros Hf. unfold consumer. unfold bind at 1. unfold logger at 1.
  fold (consumer_started queue_name_suffix). unfold try_except at 1.
  unfold bind at 1. unfold try_except at 1.
  unfold redis_Redis, next_fault. simpl. rewrite Hf. done.
Qed.

End Loop.

(** C1: a consumer whose connection cannot be opened logs the error at
    critical level and ends the process with exit status -1 before any
    command is sent; and whenever, after any number of completed turns,
    the blocking pop raises, the consumer logs the error at critical level
    and ends the process with exit status -1 at once: the final world is
    the one the failed call left plus that one log record, so nothing is
    retried, cleaned up or sent afterwards. *)
Theorem backend_failure_is_fatal (json_loads : string -> PyExc + pyval)
  (self : Command) (queue_name_suffix : string) :
  (forall fuel w e fs,
     faults w = Some e :: fs ->
     exists w',
       consumer json_loads self queue_name_suffix fuel w = (Exited (-1), w') /\
       log w' = (log w ++ [consumer_started queue_name_suffix; redis_error e])%list /\
       issued w' = issued w /\ crawled w' = crawled w /\
       backlog w' = backlog w /\ counters w' = counters w) /\
  (forall n m w w0 w1 e w2,
     redis_Redis (add_log (consumer_started queue_name_suffix) w) = (Done tt, w0) ->
     after_turns json_loads self queue_name_suffix n w0 w1 ->
     dequeue self queue_name_suffix w1 = (Raised e, w2) ->
     consumer json_loads self queue_name_suffix (n + S m) w
       = (Exited (-1), add_log (queue_error e) w2) /\
     issued w2 = issued w1 /\ crawled w2 = crawled w1 /\
     backlog w2 = backlog w1 /\ counters w2 = counters w1).
Proof.
  split.
  - intros fuel w e fs Hf. eexists. split.
    + by apply consumer_connect_failed.
    + simpl. by rewrite <- app_assoc.
  - intros n m w w0 w1 e w2 Hc Hturns Hd. split.
    + rewrite (consumer_connected _ _ _ _ _ _ Hc).
      rewrite (loop_after_turns _ _ _ _ _ _ _ Hturns).
      rewrite (loop_exits _ _ _ _ _ _ _
                 (iteration_queue_error _ _ _ _ _ _ Hd)).
      done.
    + destruct (dequeue_outcome self queue_name_suffix w1)
        as [(k & x & w' & H & _)|[(e' & w' & H & Hi & Hb & Hcn & _ & _ & Hcr)|(w' & H)]];
        rewrite H in Hd; try discriminate.
      by injection Hd as -> ->.
Qed.

Lemma backend_failure_is_fatal_witness :
  (exists w',
     consumer json_loads_ascii sample_command "a" 5 unreachable
       = (Exited (-1), w') /\
     log w' = [consumer_started "a"; redis_error connection_lost] /\
     issued w' = [] /\ crawled w' = [] /\
     backlog w' = ∅ /\ counters w' = ∅) /\
  (let w0 := snd (redis_Redis (add_log (consumer_started "a") failing_later)) in
   let w1 := snd (consumer_iteration json_loads_ascii sample_command "a" w0) in
   let w2 := snd (dequeue sample_command "a" w1) in
   consumer json_loads_ascii sample_command "a" (1 + 4) failing_later
     = (Exited (-1), add_log (queue_error connection_lost) w2) /\
   issued w2 = issued w1 /\ crawled w2 = crawled w1 /\
   backlog w2 = backlog w1 /\ counters w2 = counters w1).
Proof.
  destruct (backend_failure_is_fatal json_loads_ascii sample_command "a")
    as [Hconnect Hpop].
  split.
  - apply (Hconnect 5%nat unreachable connection_lost []). reflexivity.
  - set (w0 := snd (redis_Redis (add_log (consumer_started "a") failing_later))).
    set (w1 := snd (consumer_iteration json_loads_ascii sample_command "a" w0)).
    apply (Hpop 1%nat 3%nat failing_later w0 w1 connection_lost
             (snd (dequeue sample_command "a" w1))).
    + vm_compute. reflexivity.
    + exists w1. split; [|reflexivity]. vm_compute. reflexivity.
    + vm_compute. reflexivity.
Defined.

(** The whole run of that consumer, as the operator sees it: one job
    crawled and counted, then the critical record and exit status -1. *)
Example failing_later_run :
  let r := consumer json_loads_ascii sample_command "a" 5 failing_later in
  fst r = Exited (-1) /\
  map log_level (log (snd r)) = [INFO; INFO; CRITICAL] /\
  last (log (snd r)) = Some (queue_error connection_lost) /\
  issued (snd r) = [BLPOP "Q.a.BACKLOG"; INCR "Q.a.C.FINISHED." 1;
                    INCR "Q.a.C.RPM." 1; EXPIRE "Q.a.C.RPM." 60] /\
  counters (snd r) !! "Q.a.C.FINISHED." = Some 1.
Proof. vm_compute. repeat split. Qed.

(** ** Payloads that do not decode to a job *)

(** A payload [json.loads] rejects is logged and skipped: the executor is
    not called, nothing is recorded, and the loop takes its next turn. *)
Lemma undecodable_payload_is_skipped json_loads self sfx payload e w w1 fuel :
  pop_payload self sfx w = (Done payload, w1) ->
  json_loads payload = inl e ->
  consumer_iteration json_loads self sfx w
    = (Done tt, add_log (invalid_payload e) w1) /\
  crawled w1 = crawled w /\ counters w1 = counters w /\
  consumer_loop json_loads self sfx (S fuel) w
    = consumer_loop json_loads self sfx fuel (add_log (invalid_payload e) w1).
Proof.
  intros Hpop Hjson.
  assert (Hit : consumer_iteration json_loads self sfx w
                = (Done tt, add_log (invalid_payload e) w1)).
  { unfold consumer_iteration.
    rewrite (bind_Done _ _ _ _ _ Hpop).
    by rewrite (bind_Done _ _ _ _ _ (load_task_error _ _ _ _ Hjson)). }
  destruct (pop_payload_effect _ _ _ _ _ Hpop) as (key & _ & _ & Hc & _ & _ & Hcr & _).
  repeat split; try done. by apply loop_turn.
Qed.

(** X12: a payload that is valid JSON but not an object makes [task.get] raise
    [AttributeError] outside every inner handler: the outer handler of the
    consumer logs [QueueWorkerExit] and ends the process. *)
Lemma non_object_payload_is_fatal json_loads self sfx payload task w w0 w1 fuel :
  redis_Redis (add_log (consumer_started sfx) w) = (Done tt, w0) ->
  pop_payload self sfx w0 = (Done payload, w1) ->
  json_loads payload = inr task ->
  isinstance_dict task = false ->
  consumer json_loads self sfx (S fuel) w
    = (Exited (-1),
       add_log (worker_exit sfx (AttributeError task "get"))
               (add_log detected_job w1)).
Proof.
  intros Hc Hpop Hjson Hnd.
  rewrite (consumer_connected _ _ _ _ _ _ Hc).
  assert (Hit : consumer_iteration json_loads self sfx w0
                = (Raised (AttributeError task "get"), add_log detected_job w1)).
  { rewrite (consumer_iteration_decoded _ _ _ _ _ _ _ Hpop Hjson).
    by rewrite (bind_Raised _ _ _ _ _ (read_task_not_dict self task _ Hnd)). }
  by rewrite (loop_raises _ _ _ _ _ _ _ Hit).
Qed.

(** C3, at a payload the code mishandles: the JSON array [[1]] is not a
    job descriptor, yet the consumer does not skip it.  The process ends
    with exit status -1 after the [QueueWorkerExit] record, and the
    well-formed job queued behind it is never taken. *)
Theorem array_payload_ends_process :
  let r := consumer json_loads_ascii sample_command "a" 3
             (waiting [array_payload; sample_payload]) in
  json_loads_ascii array_payload = inr (PyList [PyInt 1]) /\
  fst r = Exited (-1) /\
  log (snd r) = [consumer_started "a"; detected_job;
                 worker_exit "a" (AttributeError (PyList [PyInt 1]) "get")] /\
  crawled (snd r) = [] /\
  backlog (snd r) !! "Q.a.BACKLOG" = Some [sample_payload] /\
  issued (snd r) = [BLPOP "Q.a.BACKLOG"].
Proof. vm_compute. repeat split. Qed.

(** The same happens for an object whose [spider] is a list: the registry
    lookup raises [TypeError] before the arguments are looked at. *)
Example unhashable_spider_ends_process :
  let r := consumer json_loads_ascii sample_command "a" 3
             (waiting [Json.text "{'spider': [1], 'args': 'x'}"]) in
  fst r = Exited (-1) /\
  log (snd r) = [consumer_started "a"; detected_job;
                 worker_exit "a" (UnhashableType (PyList [PyInt 1]))] /\
  crawled (snd r) = [].
Proof. vm_compute. repeat split. Qed.

(** A payload that is not JSON at all is skipped, and the job behind it
    is run. *)
Example garbage_payload_skipped :
  let r := consumer json_loads_ascii sample_command "a" 3
             (waiting ["not json"; sample_payload]) in
  fst r = Blocked /\
  map log_level (log (snd r)) = [INFO; CRITICAL; INFO] /\
  crawled (snd r) = [(sample_spider, [("x", PyInt 1)])] /\
  counters (snd r) !! "Q.a.C.FINISHED." = Some 1.
Proof. vm_compute. repeat split. Qed.

(** ** The finished counter *)

Section Finished.

Variable json_loads : string -> PyExc + pyval.
Variable self : Command.
Variables queue_name_suffix key finished rpm : string.

Hypothesis backlog_name :
  queue_backlog_names self !! queue_name_suffix = Some key.
Hypothesis finished_name :
  queue_finished_counter_names self !! queue_name_suffix = Some finished.
Hypothesis rpm_name :
  queue_consumers_rpm_names self !! queue_name_suffix = Some rpm.
Hypothesis distinct_names : finished ≠ rpm.

(** One turn on a healthy connection: the head of the backlog is consumed
    and the finished counter goes up by one exactly when the executor was
    called. *)
Lemma healthy_turn p ps w :
  backlog w !! key = Some (p :: ps) ->
  faults w = [] ->
  tolerated json_loads self p = true ->
  exists w',
    consumer_iteration json_loads self queue_name_suffix w = (Done tt, w') /\
    backlog w' !! key = Some ps /\ faults w' = [] /\
    counter finished w'
      = counter finished w + (if dispatches json_loads self p then 1 else 0) /\
    length (crawled w')
      = (length (crawled w) + (if dispatches json_loads self p then 1 else 0))%nat.
Proof.
  intros Hb Hf Htol.
  pose proof (pop_payload_healthy self _ _ _ _ _ backlog_name Hb Hf) as Hpop.
  set (w1 := set_backlog (insert key ps) (add_issued (BLPOP key) w)) in Hpop.
  assert (Hb1 : backlog w1 !! key = Some ps) by (simpl; apply lookup_insert_eq).
  unfold tolerated in Htol. unfold dispatches, counter.
  destruct (json_loads p) as [e|task] eqn:Hjson.
  - destruct (undecodable_payload_is_skipped json_loads self _ _ _ _ _ 0%nat
                Hpop Hjson) as (Hit & _).
    eexists. split; [exact Hit|]. simpl. rewrite Hf.
    split; [apply lookup_insert_eq|]. split; [done|]. split; lia.
  - destruct task as [| | | | | |d]; try discriminate.
    destruct (spiders_get (spiders self) (spider_field d)) as [e|spider] eqn:Hsp;
      [discriminate|].
    assert (exists a w2, read_task self (PyDict d) (add_log detected_job w1)
                         = (Done (spider_field d, spider, a), w2))
      as (a & w2 & Hread).
    { rewrite read_task_dict, Hsp. destruct (args_field d); eauto. }
    pose proof (read_task_effect _ _ _ _ _ Hread)
      as (Hb2 & Hc2 & _ & Hf2 & _ & Hcr2 & _).
    pose proof (consumer_iteration_decoded _ _ _ _ _ _ _ Hpop Hjson) as Hit.
    rewrite (bind_Done _ _ _ _ _ Hread) in Hit. cbn [fst snd] in Hit.
    simpl in Hb2, Hc2, Hf2, Hcr2.
    destruct spider as [h|]; [destruct (handle_truth h) eqn:Ht|].
    + rewrite finish_job_known in Hit by done.
      destruct (run_crawl_total h a w2)
        as (w3 & Hrun & Hcr3 & Hb3 & Hc3 & _ & Hf3 & _).
      rewrite (bind_Done _ _ _ _ _ Hrun) in Hit.
      destruct (record_stats_healthy self queue_name_suffix finished rpm w3
                  finished_name rpm_name) as (w4 & Hrec & Hf4);
        [congruence|].
      destruct (record_stats_done self _ _ _ finished_name rpm_name
                  distinct_names w3 w4 Hrec)
        as (Hc4 & _ & _ & _ & Hb4 & _ & Hcr4 & _).
      exists w4. split; [congruence|].
      rewrite Hb4, Hb3, Hb2, Hc4, Hcr4, Hcr3, Hcr2. unfold incremented.
      rewrite Hc3, Hc2, length_app. simpl.
      split; [apply lookup_insert_eq|]. split; [congruence|]. split; [done | lia].
    + rewrite finish_job_unknown in Hit by (simpl; by rewrite Ht).
      eexists. split; [exact Hit|]. simpl.
      rewrite Hb2, Hc2, Hf2, Hcr2. simpl.
      split; [apply lookup_insert_eq|]. split; [done|]. split; lia.
    + rewrite finish_job_unknown in Hit by done.
      eexists. split; [exact Hit|]. simpl.
      rewrite Hb2, Hc2, Hf2, Hcr2. simpl.
      split; [apply lookup_insert_eq|]. split; [done|]. split; lia.
Qed.

(** The loop on a healthy connection works the backlog off and then
    sleeps; the finished counter has grown by the number of executor
    calls. *)
Lemma healthy_loop payloads : forall w,
  backlog w !! key = Some payloads ->
  faults w = [] ->
  Forall (fun p => tolerated json_loads self p = true) payloads ->
  exists w',
    consumer_loop json_loads self queue_name_suffix (S (length payloads)) w
      = (Blocked, w') /\
    counter finished w'
      = counter finished w + Z.of_nat (dispatched json_loads self payloads) /\
    length (crawled w')
      = (length (crawled w) + dispatched json_loads self payloads)%nat.
Proof.
  induction payloads as [|p ps IH]; intros w Hb Hf Htol.
  - exists (add_issued (BLPOP key) w).
    split; [|unfold counter, dispatched; simpl; split; lia].
    cbn [length consumer_loop]. unfold consumer_iteration.
    pose proof (pop_payload_empty self _ _ _ backlog_name Hb Hf) as Hpop.
    unfold bind at 1. unfold bind at 1. by rewrite Hpop.
  - apply Forall_cons in Htol as [Hp Hps].
    destruct (healthy_turn p ps w Hb Hf Hp) as (w1 & Hit & Hb1 & Hf1 & Hc1 & Hcr1).
    destruct (IH w1 Hb1 Hf1 Hps) as (w' & Hloop & Hc' & Hcr').
    exists w'. split.
    + cbn [length]. by rewrite (loop_turn _ _ _ _ _ _ Hit).
    + rewrite Hc', Hc1, Hcr', Hcr1. unfold dispatched. cbn [List.filter].
      destruct (dispatches json_loads self p); cbn [length]; split; lia.
Qed.

End Finished.

Lemma dispatched_all json_loads self payloads :
  Forall (fun p => dispatches json_loads self p = true) payloads ->
  dispatched json_loads self payloads = length payloads.
Proof.
  unfold dispatched. induction 1 as [|p ps Hp _ IH]; [done|].
  cbn [List.filter]. rewrite Hp. cbn [length]. by rewrite IH.
Qed.

(** C2 (amended): on a healthy connection the loop works off a backlog of
    payloads it tolerates and then sleeps in [blpop]; the finished counter
    has then grown by exactly the number of turns that called the executor
    (whether the executor returned or raised), and by nothing for the
    turns that skipped an undecodable payload or an unknown spider.  When
    every payload is a job for a known spider it has grown by exactly the
    number of payloads. *)
Theorem finished_counter_counts_executor_calls
  (json_loads : string -> PyExc + pyval) (self : Command)
  (queue_name_suffix key finished rpm : string) (payloads : list string)
  (w : World) :
  queue_backlog_names self !! queue_name_suffix = Some key ->
  queue_finished_counter_names self !! queue_name_suffix = Some finished ->
  queue_consumers_rpm_names self !! queue_name_suffix = Some rpm ->
  finished ≠ rpm ->
  backlog w !! key = Some payloads ->
  faults w = [] ->
  Forall (fun p => tolerated json_loads self p = true) payloads ->
  exists w',
    consumer_loop json_loads self queue_name_suffix (S (length payloads)) w
      = (Blocked, w') /\
    counter finished w'
      = counter finished w + Z.of_nat (dispatched json_loads self payloads) /\
    length (crawled w')
      = (length (crawled w) + dispatched json_loads self payloads)%nat /\
    (Forall (fun p => dispatches json_loads self p = true) payloads ->
     counter finished w' = counter finished w + Z.of_nat (length payloads)).
Proof.
  intros Hk Hf Hr Hne Hb Hfs Htol.
  destruct (healthy_loop json_loads self queue_name_suffix key finished rpm
              Hk Hf Hr Hne payloads w Hb Hfs Htol) as (w' & Hloop & Hc & Hcr).
  exists w'. repeat split; try done.
  intros Hall. by rewrite Hc, dispatched_all.
Qed.

Lemma finished_counter_counts_executor_calls_witness :
  let w := waiting_with mixed_backlog [Some boom; None] in
  exists w',
    consumer_loop json_loads_ascii sample_command "a" 5 w = (Blocked, w') /\
    counter "Q.a.C.FINISHED." w' = 0 + 2 /\
    length (crawled w') = (0 + 2)%nat /\
    (Forall (fun p => dispatches json_loads_ascii sample_command p = true)
            mixed_backlog ->
     counter "Q.a.C.FINISHED." w' = 0 + 4).
Proof.
  apply (finished_counter_counts_executor_calls json_loads_ascii sample_command
           "a" "Q.a.BACKLOG" "Q.a.C.FINISHED." "Q.a.C.RPM." mixed_backlog
           (waiting_with mixed_backlog [Some boom; None])).
  - reflexivity.
  - reflexivity.
  - reflexivity.
  - discriminate.
  - reflexivity.
  - reflexivity.
  - repeat constructor.
Defined.

(** C2 as stated fails: a job for a spider that is not in the registry
    goes through a whole turn of the loop, which then sleeps in [blpop]; the finished counter
    has not been created, let alone incremented to 1, and no [INCR] was
    sent. *)
Lemma unknown_job_not_counted :
  let r := consumer json_loads_ascii sample_command "a" 2
             (waiting [unknown_payload]) in
  fst r = Blocked /\
  last (log (snd r)) = Some (unknown_spider (PyStr "nope")) /\
  issued (snd r) = [BLPOP "Q.a.BACKLOG"; BLPOP "Q.a.BACKLOG"] /\
  counters (snd r) !! "Q.a.C.FINISHED." = None /\
  counter "Q.a.C.FINISHED." (snd r) ≠ 1.
Proof. vm_compute. repeat split. discriminate. Qed.

(** ** Key names never collide *)

Lemma chars_app (a b : string) :
  list_ascii_of_string (a +:+ b)
  = (list_ascii_of_string a ++ list_ascii_of_string b)%list.
Proof.
  induction a as [|c a IH]; [done|].
  change (String c a +:+ b) with (String c (a +:+ b)). simpl. by rewrite IH.
Qed.

Lemma chars_inj (a b : string) :
  list_ascii_of_string a = list_ascii_of_string b -> a = b.
Proof.
  intros H. rewrite <- (string_of_list_ascii_of_string a),
    <- (string_of_list_ascii_of_string b). by rewrite H.
Qed.

(** Two texts that end in tags neither of which is the end of the other
    are different. *)
Lemma tags_apart (a b u v : string) :
  ¬ list_ascii_of_string u `suffix_of` list_ascii_of_string v ->
  ¬ list_ascii_of_string v `suffix_of` list_ascii_of_string u ->
  a +:+ u ≠ b +:+ v.
Proof.
  intros Huv Hvu Heq. apply (f_equal list_ascii_of_string) in Heq.
  rewrite !chars_app in Heq.
  destruct (suffix_weak_total (list_ascii_of_string u) (list_ascii_of_string v)
              (list_ascii_of_string a ++ list_ascii_of_string u)%list); try tauto.
  - by apply suffix_app_r.
  - rewrite Heq. by apply suffix_app_r.
Qed.

Lemma tag_cancel (a b u : string) : a +:+ u = b +:+ u -> a = b.
Proof.
  intros Heq. apply chars_inj. apply (f_equal list_ascii_of_string) in Heq.
  rewrite !chars_app in Heq. by apply app_inv_tail in Heq.
Qed.

Lemma app_assoc_str (a b c : string) : (a +:+ b) +:+ c = a +:+ (b +:+ c).
Proof.
  apply chars_inj. by rewrite !chars_app, app_assoc.
Qed.

(** The keys of different roles are different, whatever the namespaces and
    the suffixes are. *)
Lemma roles_apart (N N' S S' : string) :
  N +:+ "." +:+ S +:+ ".BACKLOG" ≠ N' +:+ "." +:+ S' +:+ ".C.FINISHED." /\
  N +:+ "." +:+ S +:+ ".BACKLOG" ≠ N' +:+ "." +:+ S' +:+ ".C.RPM." /\
  N +:+ "." +:+ S +:+ ".C.FINISHED." ≠ N' +:+ "." +:+ S' +:+ ".C.RPM.".
Proof.
  rewrite <- !(app_assoc_str _ "." _), <- !(app_assoc_str _ _ ".BACKLOG"),
    <- !(app_assoc_str _ _ ".C.FINISHED."), <- !(app_assoc_str _ _ ".C.RPM.").
  repeat split; apply tags_apart; apply (bool_decide_eq_false_1 _); by vm_compute.
Qed.

(** Within one namespace the keys of one role tell the suffixes apart. *)
Lemma role_inj (N S S' tag : string) :
  N +:+ "." +:+ S +:+ tag = N +:+ "." +:+ S' +:+ tag -> S = S'.
Proof.
  intros H. apply String.app_inj in H. apply String.app_inj in H.
  by apply tag_cancel in H.
Qed.

(** What the three tables of a booted command hold for any suffix. *)
Lemma boot_tables (settings : Settings) (cpu_count : Z)
  (discovered : gmap string handle) (S : string) :
  let cmd := boot settings cpu_count discovered in
  (In S (map fst (queue_workers_count cmd)) /\
   queue_backlog_names cmd !! S = Some (queue_name cmd +:+ "." +:+ S +:+ ".BACKLOG") /\
   queue_finished_counter_names cmd !! S
     = Some (queue_name cmd +:+ "." +:+ S +:+ ".C.FINISHED.") /\
   queue_consumers_rpm_names cmd !! S
     = Some (queue_name cmd +:+ "." +:+ S +:+ ".C.RPM.")) \/
  (~ In S (map fst (queue_workers_count cmd)) /\
   queue_backlog_names cmd !! S = None /\
   queue_finished_counter_names cmd !! S = None /\
   queue_consumers_rpm_names cmd !! S = None).
Proof.
  intros cmd. subst cmd. unfold boot. cbn [queue_backlog_names
    queue_finished_counter_names queue_consumers_rpm_names queue_name
    queue_workers_count].
  set (N := default "SCRAPY_X_QUEUE" (X_QUEUE_NAME settings)).
  set (l := map fst _).
  pose proof (boot_fold_lookup N l (mkTables ∅ ∅ ∅) S) as H.
  unfold lookup3, names_of in H. cbn [fst snd] in H.
  rewrite <- list_elem_of_In.
  destruct (decide (S ∈ l)) as [Hin|Hout]; injection H as -> -> ->.
  - left. done.
  - right. cbn. by rewrite !lookup_empty.
Qed.

(** X1: [boot] creates keys for the configured suffixes and for nothing else. *)
Theorem boot_tables_domain (settings : Settings) (cpu_count : Z)
  (discovered : gmap string handle) (S : string) :
  let cmd := boot settings cpu_count discovered in
  let configured := In S (map fst (queue_workers_count cmd)) in
  (is_Some (queue_backlog_names cmd !! S) <-> configured) /\
  (is_Some (queue_finished_counter_names cmd !! S) <-> configured) /\
  (is_Some (queue_consumers_rpm_names cmd !! S) <-> configured).
Proof.
  intros cmd configured. subst configured cmd.
  destruct (boot_tables settings cpu_count discovered S)
    as [(Hin & -> & -> & ->)|(Hout & -> & -> & ->)];
    repeat split; intros Hx; try done; by destruct Hx.
Qed.

(** X2: the keys of a booted command never collide: a backlog key, a finished
    counter key and an RPM key are pairwise different, whichever queues
    they belong to. *)
Theorem boot_roles_never_collide (settings : Settings) (cpu_count : Z)
  (discovered : gmap string handle) (S1 S2 S3 key finished rpm : string) :
  let cmd := boot settings cpu_count discovered in
  queue_backlog_names cmd !! S1 = Some key ->
  queue_finished_counter_names cmd !! S2 = Some finished ->
  queue_consumers_rpm_names cmd !! S3 = Some rpm ->
  key ≠ finished /\ key ≠ rpm /\ finished ≠ rpm.
Proof.
  intros cmd Hk Hf Hr.
  destruct (boot_tables settings cpu_count discovered S1)
    as [(_ & E & _ & _)|(_ & E & _ & _)]; fold cmd in E;
    rewrite E in Hk; [|done].
  destruct (boot_tables settings cpu_count discovered S2)
    as [(_ & _ & E' & _)|(_ & _ & E' & _)]; fold cmd in E';
    rewrite E' in Hf; [|done].
  destruct (boot_tables settings cpu_count discovered S3)
    as [(_ & _ & _ & E'')|(_ & _ & _ & E'')]; fold cmd in E'';
    rewrite E'' in Hr; [|done].
  injection Hk as <-. injection Hf as <-. injection Hr as <-.
  set (N := queue_name cmd).
  pose proof (roles_apart N N S1 S2) as (A1 & _ & _).
  pose proof (roles_apart N N S1 S3) as (_ & A2 & _).
  pose proof (roles_apart N N S2 S3) as (_ & _ & A3).
  done.
Qed.

(** X3: two queues of a booted command never share a key of the same role. *)
Theorem boot_queues_have_own_keys (settings : Settings) (cpu_count : Z)
  (discovered : gmap string handle) (S S' k : string) :
  let cmd := boot settings cpu_count discovered in
  (queue_backlog_names cmd !! S = Some k /\ queue_backlog_names cmd !! S' = Some k) \/
  (queue_finished_counter_names cmd !! S = Some k /\
   queue_finished_counter_names cmd !! S' = Some k) \/
  (queue_consumers_rpm_names cmd !! S = Some k /\
   queue_consumers_rpm_names cmd !! S' = Some k) ->
  S = S'.
Proof.
  intros cmd H.
  destruct (boot_tables settings cpu_count discovered S)
    as [(_ & E1 & E2 & E3)|(_ & E1 & E2 & E3)];
    destruct (boot_tables settings cpu_count discovered S')
      as [(_ & E1' & E2' & E3')|(_ & E1' & E2' & E3')];
    fold cmd in E1, E2, E3, E1', E2', E3';
    rewrite E1, E2, E3, E1', E2', E3' in H;
    destruct H as [[H H']|[[H H']|[H H']]]; try discriminate;
    injection H as <-; injection H' as H'; symmetry in H';
    by apply role_inj in H'.
Qed.

(** ** What the consumer is confined to *)

Section Confined.

Variable self : Command.
Variable sfx : string.

Local Abbreviation R := (confined self sfx).

Lemma confined_refl w : R w w.
Proof.
  split; try done. exists []. by rewrite app_nil_r.
Qed.

Lemma confined_trans w1 w2 w3 : R w1 w2 -> R w2 w3 -> R w1 w3.
Proof.
  intros [[c1 [I1 F1]] L1 C1 Q1 B1 N1 U1 E1] [[c2 [I2 F2]] L2 C2 Q2 B2 N2 U2 E2].
  split.
  - exists (c1 ++ c2)%list. rewrite I2, I1, app_assoc. split; [done|].
    by apply Forall_app.
  - etrans; [exact L1 | exact L2].
  - etrans; [exact C1 | exact C2].
  - intros k. etrans; [apply Q2 | apply Q1].
  - intros k Hk. by rewrite B2, B1.
  - intros k Hf Hr. by rewrite N2, N1.
  - intros k. specialize (U1 k). specialize (U2 k). lia.
  - intros k Hk. by rewrite E2, E1.
Qed.

(** A step that leaves the server, the executor record and the commands
    alone and only adds to the log. *)
Lemma confined_quiet w w' :
  issued w' = issued w -> log w `prefix_of` log w' ->
  crawled w' = crawled w -> backlog w' = backlog w ->
  counters w' = counters w -> expiry w' = expiry w ->
  R w w'.
Proof.
  intros Hi Hl Hc Hb Hn He. split; try done.
  - exists []. by rewrite app_nil_r.
  - by rewrite Hc.
  - intros k. unfold queued. by rewrite Hb.
  - intros k _. by rewrite Hb.
  - intros k _ _. by rewrite Hn.
  - intros k. unfold counter. by rewrite Hn.
  - intros k _. by rewrite He.
Qed.

Section Rules.

Context {A B : Type}.

Lemma preserves_ret (a : A) : preserves R (ret a).
Proof. intros w. apply confined_refl. Qed.

Lemma preserves_raise (e : PyExc) : preserves R (raise (A := A) e).
Proof. intros w. apply confined_refl. Qed.

Lemma preserves_exit (c : Z) : preserves R (os__exit (A := A) c).
Proof. intros w. apply confined_refl. Qed.

Lemma preserves_lift (r : PyExc + A) : preserves R (lift r).
Proof. destruct r; [apply preserves_raise | apply preserves_ret]. Qed.

Lemma preserves_bind (m : M A) (k : A -> M B) :
  preserves R m -> (forall a, preserves R (k a)) -> preserves R (bind m k).
Proof.
  intros Hm Hk w. specialize (Hm w). unfold bind.
  destruct (m w) as [[a|e|c| |] w1]; simpl in *; try done.
  eapply confined_trans; [exact Hm | apply Hk].
Qed.

Lemma preserves_try (body : M A) (handler : PyExc -> M A) :
  preserves R body -> (forall e, preserves R (handler e)) ->
  preserves R (try_except body handler).
Proof.
  intros Hm Hk w. specialize (Hm w). unfold try_except.
  destruct (body w) as [[a|e|c| |] w1]; simpl in *; try done.
  eapply confined_trans; [exact Hm | apply Hk].
Qed.

Lemma preserves_getitem (d : gmap string string) (k : string -> M B) :
  (forall key, d !! sfx = Some key -> preserves R (k key)) ->
  preserves R (bind (getitem d sfx) k).
Proof.
  intros Hk w. unfold bind, getitem.
  destruct (d !! sfx) as [key|] eqn:Hd; simpl.
  - by apply Hk.
  - apply confined_refl.
Qed.

End Rules.

Lemma preserves_logger l t args : preserves R (logger l t args).
Proof.
  intros w. apply confined_quiet; try done. simpl. by apply prefix_app_r.
Qed.

Lemma preserves_next_fault : preserves R next_fault.
Proof.
  intros w. unfold next_fault.
  destruct (faults w) as [|[e|] fs]; simpl; by apply confined_quiet.
Qed.

Lemma preserves_crawl h args : preserves R (crawl h args).
Proof.
  intros w. unfold crawl. simpl.
  assert (R w (add_crawled (h, args) w)) as H0.
  { split; try done.
    - exists []. by rewrite app_nil_r.
    - simpl. by apply prefix_app_r. }
  destruct (crawl_plan w) as [|[e|] cs]; simpl; try done;
    (eapply confined_trans; [exact H0|]); by apply confined_quiet.
Qed.

Lemma preserves_blpop key :
  queue_backlog_names self !! sfx = Some key -> preserves R (blpop key).
Proof.
  intros Hkey. apply preserves_bind; [apply preserves_next_fault|].
  intros _ w. cbn beta.
  assert (R w (add_issued (BLPOP key) w)) as H0.
  { split; try done.
    exists [BLPOP key]. split; [done|]. by constructor. }
  simpl. destruct (backlog w !! key) as [[|x xs]|] eqn:Hb; simpl; try done.
  eapply confined_trans; [exact H0|].
  split.
  - exists []. by rewrite app_nil_r.
  - done.
  - done.
  - intros k. unfold queued. simpl.
    destruct (decide (key = k)) as [<-|Hne].
    + rewrite lookup_insert_eq, Hb. simpl. by apply suffix_cons_r.
    + by rewrite lookup_insert_ne.
  - intros k Hk. simpl. rewrite lookup_insert_ne; [done|congruence].
  - done.
  - intros k. done.
  - done.
Qed.

Lemma preserves_incr key :
  queue_finished_counter_names self !! sfx = Some key \/
  queue_consumers_rpm_names self !! sfx = Some key ->
  preserves R (incr key 1).
Proof.
  intros Hkey. apply preserves_bind; [apply preserves_next_fault|].
  intros _ w. cbn beta. simpl. split.
  - exists [INCR key 1]. split; [done|]. by constructor.
  - done.
  - done.
  - intros k. done.
  - done.
  - intros k Hf Hr. simpl. rewrite lookup_insert_ne; [done|].
    intros <-. destruct Hkey; congruence.
  - intros k. unfold counter. simpl.
    destruct (decide (key = k)) as [<-|Hne].
    + rewrite lookup_insert_eq. simpl. lia.
    + rewrite lookup_insert_ne by done. lia.
  - done.
Qed.

Lemma preserves_expire key :
  queue_consumers_rpm_names self !! sfx = Some key ->
  preserves R (expire key 60).
Proof.
  intros Hkey. apply preserves_bind; [apply preserves_next_fault|].
  intros _ w. cbn beta.
  assert (R w (add_issued (EXPIRE key 60) w)) as H0.
  { split; try done.
    exists [EXPIRE key 60]. split; [done|]. by constructor. }
  simpl. destruct (counters w !! key); simpl; [|done].
  eapply confined_trans; [exact H0|]. split.
  - exists []. by rewrite app_nil_r.
  - done.
  - done.
  - intros k. done.
  - done.
  - done.
  - intros k. done.
  - intros k Hk. simpl. rewrite lookup_insert_ne; [done|congruence].
Qed.

Variable json_loads : string -> PyExc + pyval.

Lemma preserves_logger_exit {A} l t args c :
  preserves R (logger l t args ;; os__exit (A := A) c).
Proof.
  apply preserves_bind; [apply preserves_logger|]. intros _. apply preserves_exit.
Qed.

Lemma preserves_dequeue : preserves R (dequeue self sfx).
Proof.
  unfold dequeue. apply preserves_getitem. intros key Hkey.
  by apply preserves_blpop.
Qed.

Lemma preserves_pop_payload : preserves R (pop_payload self sfx).
Proof.
  unfold pop_payload. apply preserves_bind.
  - apply preserves_try; [apply preserves_dequeue|].
    intros e. apply preserves_logger_exit.
  - intros reply. apply preserves_ret.
Qed.

Lemma preserves_load_task payload : preserves R (load_task json_loads payload).
Proof.
  unfold load_task. apply preserves_try.
  - apply preserves_bind; [apply preserves_lift|]. intros t. apply preserves_ret.
  - intros e. apply preserves_bind; [apply preserves_logger|].
    intros _. apply preserves_ret.
Qed.

Lemma preserves_task_get task k dflt : preserves R (task_get task k dflt).
Proof. destruct task; first [apply preserves_raise | apply preserves_ret]. Qed.

Lemma preserves_read_task task : preserves R (read_task self task).
Proof.
  unfold read_task.
  apply preserves_bind; [apply preserves_task_get|]. intros name.
  apply preserves_bind; [apply preserves_lift|]. intros spider.
  apply preserves_bind; [apply preserves_task_get|]. intros args.
  apply preserves_bind; [|intros a; apply preserves_ret].
  destruct args; try apply preserves_ret;
    (apply preserves_bind; [apply preserves_logger|]; intros _;
     apply preserves_ret).
Qed.

Lemma preserves_run_crawl h args : preserves R (run_crawl h args).
Proof.
  unfold run_crawl. apply preserves_try; [apply preserves_crawl|].
  intros e. destruct (str_truth _); [apply preserves_logger | apply preserves_ret].
Qed.

Lemma preserves_record_stats : preserves R (record_stats self sfx).
Proof.
  unfold record_stats.
  apply preserves_getitem. intros finished Hf.
  apply preserves_bind; [apply preserves_incr; by left|]. intros _.
  apply preserves_getitem. intros rpm Hr.
  apply preserves_bind; [apply preserves_incr; by right|]. intros n.
  destruct (n =? 1); [|apply preserves_ret].
  apply preserves_getitem. intros rpm' Hr'. by apply preserves_expire.
Qed.

Lemma preserves_finish_job name spider args :
  preserves R (finish_job self sfx name spider args).
Proof.
  unfold finish_job. destruct spider as [h|]; [|apply preserves_logger].
  destruct (negb _); [apply preserves_logger|].
  apply preserves_bind; [apply preserves_run_crawl|].
  intros _. apply preserves_record_stats.
Qed.

Lemma preserves_iteration : preserves R (consumer_iteration json_loads self sfx).
Proof.
  unfold consumer_iteration.
  apply preserves_bind; [apply preserves_pop_payload|]. intros payload.
  apply preserves_bind; [apply preserves_load_task|]. intros [task|];
    [|apply preserves_ret].
  apply preserves_bind; [apply preserves_logger|]. intros _.
  apply preserves_bind; [apply preserves_read_task|]. intros [[name spider] args].
  apply preserves_finish_job.
Qed.

Lemma preserves_loop fuel : preserves R (consumer_loop json_loads self sfx fuel).
Proof.
  induction fuel as [|fuel IH]; [intros w; apply confined_refl|].
  cbn [consumer_loop]. apply preserves_bind; [apply preserves_iteration|].
  intros _. exact IH.
Qed.

Lemma preserves_consumer fuel : preserves R (consumer json_loads self sfx fuel).
Proof.
  unfold consumer. apply preserves_bind; [apply preserves_logger|]. intros _.
  apply preserves_try.
  - apply preserves_bind; [|intros _; apply preserves_loop].
    apply preserves_try; [apply preserves_next_fault|].
    intros e. apply preserves_logger_exit.
  - intros e. apply preserves_logger_exit.
Qed.

End Confined.

(** ** How the consumer can end *)

Section Graceful.

Context {A B : Type}.

Lemma graceful_ret (a : A) : graceful (ret a).
Proof. by intros w. Qed.

Lemma graceful_raise (e : PyExc) : graceful (raise (A := A) e).
Proof. by intros w. Qed.

Lemma graceful_lift (r : PyExc + A) : graceful (lift r).
Proof. destruct r; [apply graceful_raise | apply graceful_ret]. Qed.

Lemma graceful_bind (m : M A) (k : A -> M B) :
  graceful m -> (forall a, graceful (k a)) -> graceful (bind m k).
Proof.
  intros Hm Hk w. specialize (Hm w). unfold bind.
  destruct (m w) as [[a|e|c| |] w1]; try done. apply Hk.
Qed.

Lemma graceful_try (body : M A) (handler : PyExc -> M A) :
  graceful body -> (forall e, graceful (handler e)) ->
  graceful (try_except body handler).
Proof.
  intros Hm Hk w. specialize (Hm w). unfold try_except.
  destruct (body w) as [[a|e|c| |] w1]; try done. apply Hk.
Qed.

(** The two lines of every fatal handler: a critical record, then
    [os._exit(-1)]. *)
Lemma graceful_fatal (t : string) (args : list fmt_arg) :
  graceful (logger CRITICAL t args ;; os__exit (A := A) (-1)).
Proof.
  intros w. unfold bind, logger, os__exit. simpl. split; [done|].
  eexists. split; [apply last_snoc | done].
Qed.

End Graceful.

Lemma graceful_getitem d k : graceful (getitem d k).
Proof. intros w. unfold getitem. by destruct (d !! k). Qed.

Lemma graceful_logger l t args : graceful (logger l t args).
Proof. by intros w. Qed.

Lemma graceful_next_fault : graceful next_fault.
Proof. intros w. unfold next_fault. by destruct (faults w) as [|[e|] fs]. Qed.

Lemma graceful_blpop key : graceful (blpop key).
Proof.
  apply graceful_bind; [apply graceful_next_fault|]. intros _ w. cbn beta. simpl.
  by destruct (backlog w !! key) as [[|x xs]|].
Qed.

Lemma graceful_incr key amount : graceful (incr key amount).
Proof. apply graceful_bind; [apply graceful_next_fault|]. by intros _ w. Qed.

Lemma graceful_expire key seconds : graceful (expire key seconds).
Proof.
  apply graceful_bind; [apply graceful_next_fault|]. intros _ w. cbn beta. simpl.
  by destruct (counters w !! key).
Qed.

Lemma graceful_crawl h args : graceful (crawl h args).
Proof. intros w. unfold crawl. simpl. by destruct (crawl_plan w) as [|[e|] cs]. Qed.

Lemma graceful_task_get task k dflt : graceful (task_get task k dflt).
Proof. destruct task; first [apply graceful_raise | apply graceful_ret]. Qed.

Lemma graceful_iteration json_loads self sfx :
  graceful (consumer_iteration json_loads self sfx).
Proof.
  unfold consumer_iteration.
  apply graceful_bind.
  { unfold pop_payload. apply graceful_bind; [|intros r; apply graceful_ret].
    apply graceful_try; [|intros e; apply graceful_fatal].
    unfold dequeue. apply graceful_bind; [apply graceful_getitem|].
    intros key. apply graceful_blpop. }
  intros payload. apply graceful_bind.
  { unfold load_task. apply graceful_try.
    - apply graceful_bind; [apply graceful_lift|]. intros t. apply graceful_ret.
    - intros e. apply graceful_bind; [apply graceful_logger|].
      intros _. apply graceful_ret. }
  intros [task|]; [|apply graceful_ret].
  apply graceful_bind; [apply graceful_logger|]. intros _.
  apply graceful_bind.
  { unfold read_task.
    apply graceful_bind; [apply graceful_task_get|]. intros name.
    apply graceful_bind; [apply graceful_lift|]. intros spider.
    apply graceful_bind; [apply graceful_task_get|]. intros args.
    apply graceful_bind; [|intros a; apply graceful_ret].
    destruct args; try apply graceful_ret;
      (apply graceful_bind; [apply graceful_logger|]; intros _;
       apply graceful_ret). }
  intros [[name spider] args]. unfold finish_job.
  destruct spider as [h|]; [|apply graceful_logger].
  destruct (negb _); [apply graceful_logger|].
  apply graceful_bind.
  { unfold run_crawl. apply graceful_try; [apply graceful_crawl|].
    intros e. destruct (str_truth _); [apply graceful_logger | apply graceful_ret]. }
  intros _. unfold record_stats.
  apply graceful_bind; [apply graceful_getitem|]. intros finished.
  apply graceful_bind; [apply graceful_incr|]. intros _.
  apply graceful_bind; [apply graceful_getitem|]. intros rpm.
  apply graceful_bind; [apply graceful_incr|]. intros n.
  destruct (n =? 1); [|apply graceful_ret].
  apply graceful_bind; [apply graceful_getitem|]. intros rpm'.
  apply graceful_expire.
Qed.

(** The loop never comes to a normal end. *)
Lemma loop_never_returns json_loads self sfx fuel : forall w,
  match consumer_loop json_loads self sfx fuel w with
  | (Done _, _) => False
  | (Exited c, w') => c = -1 /\ critical_last w'
  | _ => True
  end.
Proof.
  induction fuel as [|fuel IH]; intros w; [done|].
  cbn [consumer_loop]. unfold bind.
  pose proof (graceful_iteration json_loads self sfx w) as Hit.
  destruct (consumer_iteration json_loads self sfx w) as [[[]|e|c| |] w1];
    try done. apply IH.
Qed.

(** X5: a consumer never returns and never lets an exception out: it sleeps in
    [blpop], or it ends the process with status -1 right after a critical
    record (or the model ran out of fuel while it was still working). *)
Theorem consumer_only_ends_by_exit (json_loads : string -> PyExc + pyval)
  (self : Command) (queue_name_suffix : string) (fuel : nat) (w : World) :
  match consumer json_loads self queue_name_suffix fuel w with
  | (Exited c, w') => c = -1 /\ critical_last w'
  | (Blocked, _) | (Unfinished, _) => True
  | (Done _, _) | (Raised _, _) => False
  end.
Proof.
  unfold consumer. unfold bind at 1. unfold logger at 1.
  set (w0 := add_log _ w). unfold try_except at 1. unfold bind at 1.
  pose proof (graceful_try (A := unit) redis_Redis
                (fun e => logger CRITICAL "[redis] {}" [FStr (exc_str e)] ;;
                          os__exit (-1))
                graceful_next_fault (fun e => graceful_fatal _ _) w0) as Hc.
  destruct (try_except redis_Redis _ w0) as [[[]|e|c| |] w1]; try done.
  - pose proof (loop_never_returns json_loads self queue_name_suffix fuel w1) as Hl.
    destruct (consumer_loop _ _ _ fuel w1) as [[[]|e|c| |] w2]; try done.
    apply (graceful_fatal (A := unit)).
  - apply (graceful_fatal (A := unit)).
Qed.

(** X6: the consumer of a queue sends nothing but the pop on its backlog key,
    the increments by one of its two counters and the 60 second expiry of
    its RPM key, and it leaves the lists, counters and expiries under all
    other keys as they were, however it ends. *)
Theorem consumer_keeps_to_its_queue (json_loads : string -> PyExc + pyval)
  (self : Command) (queue_name_suffix : string) (fuel : nat) (w : World) :
  let w' := snd (consumer json_loads self queue_name_suffix fuel w) in
  (exists cmds, issued w' = (issued w ++ cmds)%list /\
                Forall (own_cmd self queue_name_suffix) cmds) /\
  (forall k, queue_backlog_names self !! queue_name_suffix ≠ Some k ->
             backlog w' !! k = backlog w !! k) /\
  (forall k, queue_finished_counter_names self !! queue_name_suffix ≠ Some k ->
             queue_consumers_rpm_names self !! queue_name_suffix ≠ Some k ->
             counters w' !! k = counters w !! k) /\
  (forall k, queue_consumers_rpm_names self !! queue_name_suffix ≠ Some k ->
             expiry w' !! k = expiry w !! k).
Proof.
  intros w'. destruct (preserves_consumer self queue_name_suffix json_loads fuel w).
  auto.
Qed.

(** X7: whatever happens, a consumer only adds to the log and to the record
    of executor calls, only takes payloads from the head of a backlog and
    never puts one back, and never lowers a counter. *)
Theorem consumer_never_undoes (json_loads : string -> PyExc + pyval)
  (self : Command) (queue_name_suffix : string) (fuel : nat) (w : World) :
  let w' := snd (consumer json_loads self queue_name_suffix fuel w) in
  log w `prefix_of` log w' /\
  crawled w `prefix_of` crawled w' /\
  (forall k, queued k w' `suffix_of` queued k w) /\
  (forall k, counter k w <= counter k w').
Proof.
  intros w'. destruct (preserves_consumer self queue_name_suffix json_loads fuel w).
  auto.
Qed.

(** ** The books of a queue *)

Section Balance.

Variable json_loads : string -> PyExc + pyval.
Variable self : Command.
Variables sfx key finished rpm : string.

Hypothesis backlog_name : queue_backlog_names self !! sfx = Some key.
Hypothesis finished_name : queue_finished_counter_names self !! sfx = Some finished.
Hypothesis rpm_name : queue_consumers_rpm_names self !! sfx = Some rpm.
Hypothesis distinct_names : finished ≠ rpm.

Lemma balanced_refl w : balanced key finished w w.
Proof. unfold balanced. lia. Qed.

Lemma balanced_trans w1 w2 w3 :
  balanced key finished w1 w2 -> balanced key finished w2 w3 ->
  balanced key finished w1 w3.
Proof. unfold balanced. lia. Qed.

(** What the pop does to the server, however it ends. *)
Lemma pop_payload_any w o w1 :
  pop_payload self sfx w = (o, w1) ->
  crawled w1 = crawled w /\ counters w1 = counters w /\
  match o with
  | Done p => queued key w = p :: queued key w1
  | _ => backlog w1 = backlog w
  end.
Proof.
  unfold pop_payload, dequeue, getitem. rewrite backlog_name.
  unfold try_except, bind, ret, blpop, bind, next_fault, logger, os__exit, queued.
  simpl.
  destruct (faults w) as [|[e|] fs] eqn:Hf; simpl;
    try (destruct (backlog w !! key) as [[|x xs]|] eqn:Hb; simpl);
    intros [= <- <-]; simpl; rewrite ?lookup_insert_eq, ?Hb; done.
Qed.

(** What the recording step does to the server, however it ends. *)
Lemma record_stats_any w o w' :
  record_stats self sfx w = (o, w') ->
  backlog w' = backlog w /\ crawled w' = crawled w /\
  counter finished w <= counter finished w' <= counter finished w + 1.
Proof.
  unfold record_stats, getitem. rewrite finished_name, rpm_name.
  unfold bind, ret, incr, expire, next_fault, bind, counter; simpl.
  destruct (faults w) as [|[e1|] fs1] eqn:Hfs; simpl; rewrite ?Hfs; simpl;
    [| | destruct fs1 as [|[e2|] fs2]; simpl ];
    rewrite ?(lookup_insert_ne _ finished rpm) by done;
    try (destruct (default 0 (counters w !! rpm) + 1 =? 1) eqn:Hn; simpl;
         rewrite ?Hfs; simpl; rewrite ?lookup_insert_eq; simpl;
         try (destruct fs2 as [|[e3|] fs3]; simpl));
    rewrite ?lookup_insert_eq;
    intros [= <- <-]; simpl;
    rewrite ?(lookup_insert_ne _ rpm finished) by done;
    rewrite ?lookup_insert_eq; simpl; (split; [done|]); (split; [done|]); lia.
Qed.

Lemma turn_balanced w o w' :
  consumer_iteration json_loads self sfx w = (o, w') ->
  balanced key finished w w'.
Proof.
  unfold consumer_iteration, balanced, counter. intros H.
  destruct (pop_payload self sfx w) as [o1 w1] eqn:Hpop.
  destruct (pop_payload_any _ _ _ Hpop) as (Hcr1 & Hc1 & Hq1).
  unfold queued in *.
  destruct o1 as [p|e|c| |];
    try (unfold bind in H; rewrite Hpop in H; injection H as <- <-;
         rewrite Hcr1, Hc1, Hq1; lia).
  rewrite (bind_Done _ _ _ _ _ Hpop) in H.
  destruct (json_loads p) as [e|task] eqn:Hj.
  { rewrite (bind_Done _ _ _ _ _ (load_task_error _ _ _ _ Hj)) in H.
    injection H as <- <-. simpl. rewrite Hcr1, Hc1, Hq1. simpl. lia. }
  rewrite (bind_Done _ _ _ _ _ (load_task_ok _ _ _ _ Hj)) in H.
  unfold bind at 1 in H. unfold logger at 1 in H. fold detected_job in H.
  destruct (read_task self task (add_log detected_job w1)) as [o2 w2] eqn:Hread.
  destruct (read_task_effect _ _ _ _ _ Hread) as (Hb2 & Hc2 & _ & _ & _ & Hcr2 & _).
  simpl in Hb2, Hc2, Hcr2.
  destruct o2 as [[[name spider] args]|e|c| |];
    try (unfold bind in H; rewrite Hread in H; injection H as <- <-;
         rewrite Hb2, Hcr2, Hc2, Hcr1, Hc1, Hq1; simpl; lia).
  rewrite (bind_Done _ _ _ _ _ Hread) in H. cbn [fst snd] in H.
  destruct (not_spider spider) eqn:Hns.
  { rewrite finish_job_unknown in H by done. injection H as <- <-. simpl.
    rewrite Hb2, Hcr2, Hc2, Hcr1, Hc1, Hq1. simpl. lia. }
  destruct spider as [h|]; [|done]. simpl in Hns.
  apply negb_false_iff in Hns.
  rewrite finish_job_known in H by done.
  destruct (run_crawl_total h args w2)
    as (w3 & Hrun & Hcr3 & Hb3 & Hc3 & _).
  rewrite (bind_Done _ _ _ _ _ Hrun) in H.
  destruct (record_stats_any _ _ _ H) as (Hb4 & Hcr4 & Hc4).
  unfold counter in Hc4.
  rewrite Hb4, Hb3, Hb2, Hcr4, Hcr3, length_app, Hcr2, Hcr1, Hq1.
  rewrite Hc3, Hc2, Hc1 in Hc4. simpl. lia.
Qed.

Lemma loop_balanced fuel : forall w o w',
  consumer_loop json_loads self sfx fuel w = (o, w') ->
  balanced key finished w w'.
Proof.
  induction fuel as [|fuel IH]; intros w o w'.
  - intros [= <- <-]. apply balanced_refl.
  - cbn [consumer_loop]. unfold bind.
    destruct (consumer_iteration json_loads self sfx w) as [o1 w1] eqn:Hit.
    pose proof (turn_balanced _ _ _ Hit) as H1.
    destruct o1 as [[]|e|c| |]; try (intros [= <- <-]; exact H1).
    intros H. eapply balanced_trans; [exact H1|]. by eapply IH.
Qed.

(** A step that only adds to the log keeps the books. *)
Lemma balanced_log r w : balanced key finished w (add_log r w).
Proof. unfold balanced, queued, counter. simpl. lia. Qed.

Lemma consumer_balanced fuel w :
  balanced key finished w (snd (consumer json_loads self sfx fuel w)).
Proof.
  unfold consumer. unfold bind at 1. unfold logger at 1.
  set (w0 := add_log _ w).
  assert (H0 : balanced key finished w w0) by apply balanced_log.
  unfold try_except, bind, redis_Redis, next_fault, logger, os__exit.
  destruct (faults w0) as [|[e|] fs] eqn:Hf; simpl.
  - destruct (consumer_loop json_loads self sfx fuel w0) as [o w1] eqn:Hl.
    pose proof (loop_balanced _ _ _ _ Hl) as H1.
    destruct o as [[]|e|c| |]; simpl; by eapply balanced_trans.
  - exact H0.
  - destruct (consumer_loop json_loads self sfx fuel (set_faults fs w0))
      as [o w1] eqn:Hl.
    pose proof (loop_balanced _ _ _ _ Hl) as H1.
    destruct o as [[]|e|c| |]; simpl; by eapply balanced_trans.
Qed.

End Balance.

(** X8: the books of a queue balance however the consumer ends: the payloads
    it took form the head of the backlog it found, the executor was
    called at most once per payload taken, and the finished counter grew
    by at least zero and at most the number of executor calls. *)
Theorem consumer_books_balance (json_loads : string -> PyExc + pyval)
  (self : Command) (queue_name_suffix key finished rpm : string)
  (fuel : nat) (w : World) :
  queue_backlog_names self !! queue_name_suffix = Some key ->
  queue_finished_counter_names self !! queue_name_suffix = Some finished ->
  queue_consumers_rpm_names self !! queue_name_suffix = Some rpm ->
  finished ≠ rpm ->
  let w' := snd (consumer json_loads self queue_name_suffix fuel w) in
  exists taken jobs,
    queued key w = (taken ++ queued key w')%list /\
    crawled w' = (crawled w ++ jobs)%list /\
    (length jobs <= length taken)%nat /\
    0 <= counter finished w' - counter finished w <= Z.of_nat (length jobs).
Proof.
  intros Hk Hf Hr Hne w'.
  destruct (preserves_consumer self queue_name_suffix json_loads fuel w)
    as [_ _ [jobs Hjobs] Hq _ _ Hrise _].
  destruct (Hq key) as [taken Htaken].
  destruct (consumer_balanced json_loads self queue_name_suffix key finished rpm
              Hk Hf Hr Hne fuel w) as [Hb1 Hb2].
  fold w' in Hjobs, Htaken, Hb1, Hb2.
  exists taken, jobs. split; [done|]. split; [done|].
  specialize (Hrise finished). fold w' in Hrise.
  rewrite Hjobs, Htaken, !length_app in Hb1.
  rewrite Hjobs, length_app in Hb2. lia.
Qed.

(** ** Jobs run in queue order *)

(** The recording step touches neither the backlog nor the record of
    executor calls, however it ends. *)
Lemma record_stats_frame self sfx w o w' :
  record_stats self sfx w = (o, w') ->
  backlog w' = backlog w /\ crawled w' = crawled w.
Proof.
  unfold record_stats, getitem, bind, ret, raise, incr, expire, next_fault, bind.
  destruct (queue_finished_counter_names self !! sfx) as [f|]; simpl;
    [|by intros [= <- <-]].
  destruct (faults w) as [|[e1|] fs1] eqn:Hfs; simpl;
    destruct (queue_consumers_rpm_names self !! sfx) as [r|]; simpl;
    rewrite ?Hfs; simpl; try (by intros [= <- <-]);
    try (destruct fs1 as [|[e2|] fs2]; simpl; try (by intros [= <- <-]));
    (destruct (_ =? 1); simpl; [|by intros [= <- <-]]);
    rewrite ?Hfs; simpl;
    try (destruct fs2 as [|[e3|] fs3]; simpl; try (by intros [= <- <-]));
    rewrite ?lookup_insert_eq; by intros [= <- <-].
Qed.

Section Order.

Variable json_loads : string -> PyExc + pyval.
Variable self : Command.
Variables sfx key finished rpm : string.

Hypothesis backlog_name : queue_backlog_names self !! sfx = Some key.
Hypothesis finished_name : queue_finished_counter_names self !! sfx = Some finished.
Hypothesis rpm_name : queue_consumers_rpm_names self !! sfx = Some rpm.

Lemma healthy_turn_job p ps w :
  backlog w !! key = Some (p :: ps) ->
  faults w = [] ->
  tolerated json_loads self p = true ->
  exists w',
    consumer_iteration json_loads self sfx w = (Done tt, w') /\
    backlog w' !! key = Some ps /\ faults w' = [] /\
    crawled w' = (crawled w ++ option_list (job_of json_loads self p))%list.
Proof.
  intros Hb Hf Htol.
  pose proof (pop_payload_healthy self _ _ _ _ _ backlog_name Hb Hf) as Hpop.
  set (w1 := set_backlog (insert key ps) (add_issued (BLPOP key) w)) in Hpop.
  unfold tolerated in Htol. unfold job_of.
  destruct (json_loads p) as [e|task] eqn:Hjson.
  - destruct (undecodable_payload_is_skipped json_loads self _ _ _ _ _ 0%nat
                Hpop Hjson) as (Hit & _).
    eexists. split; [exact Hit|]. simpl. rewrite Hf, app_nil_r.
    split; [apply lookup_insert_eq | done].
  - destruct task as [| | | | | |d]; try discriminate.
    destruct (spiders_get (spiders self) (spider_field d)) as [e|spider] eqn:Hsp;
      [discriminate|].
    set (a := match args_field d with PyDict a => a | _ => [] end).
    assert (exists w2, read_task self (PyDict d) (add_log detected_job w1)
                       = (Done (spider_field d, spider, a), w2))
      as (w2 & Hread).
    { rewrite read_task_dict, Hsp. subst a. destruct (args_field d); eauto. }
    pose proof (read_task_effect _ _ _ _ _ Hread)
      as (Hb2 & Hc2 & _ & Hf2 & _ & Hcr2 & _).
    pose proof (consumer_iteration_decoded _ _ _ _ _ _ _ Hpop Hjson) as Hit.
    rewrite (bind_Done _ _ _ _ _ Hread) in Hit. cbn [fst snd] in Hit.
    simpl in Hb2, Hc2, Hf2, Hcr2.
    destruct spider as [h|]; [destruct (handle_truth h) eqn:Ht|].
    + rewrite finish_job_known in Hit by done.
      destruct (run_crawl_total h a w2)
        as (w3 & Hrun & Hcr3 & Hb3 & Hc3 & _ & Hf3 & _).
      rewrite (bind_Done _ _ _ _ _ Hrun) in Hit.
      destruct (record_stats_healthy self sfx finished rpm w3
                  finished_name rpm_name) as (w4 & Hrec & Hf4);
        [congruence|].
      pose proof (record_stats_frame self sfx _ _ _ Hrec) as Hfr.
      destruct Hfr as [Hb4 Hcr4].
      exists w4. split; [congruence|].
      rewrite Hb4, Hb3, Hb2, Hcr4, Hcr3, Hcr2. simpl.
      split; [apply lookup_insert_eq|]. split; [congruence | done].
    + rewrite finish_job_unknown in Hit by (simpl; by rewrite Ht).
      eexists. split; [exact Hit|]. simpl.
      rewrite Hb2, Hf2, Hcr2, app_nil_r. simpl.
      split; [apply lookup_insert_eq|]. done.
    + rewrite finish_job_unknown in Hit by done.
      eexists. split; [exact Hit|]. simpl.
      rewrite Hb2, Hf2, Hcr2, app_nil_r. simpl.
      split; [apply lookup_insert_eq|]. done.
Qed.

Lemma healthy_loop_jobs payloads : forall w,
  backlog w !! key = Some payloads ->
  faults w = [] ->
  Forall (fun p => tolerated json_loads self p = true) payloads ->
  exists w',
    consumer_loop json_loads self sfx (S (length payloads)) w = (Blocked, w') /\
    crawled w' = (crawled w ++ omap (job_of json_loads self) payloads)%list /\
    backlog w' !! key = Some [].
Proof.
  induction payloads as [|p ps IH]; intros w Hb Hf Htol.
  - exists (add_issued (BLPOP key) w).
    split; [|simpl; by rewrite app_nil_r].
    cbn [length consumer_loop]. unfold consumer_iteration.
    pose proof (pop_payload_empty self _ _ _ backlog_name Hb Hf) as Hpop.
    unfold bind at 1. unfold bind at 1. by rewrite Hpop.
  - apply Forall_cons in Htol as [Hp Hps].
    destruct (healthy_turn_job p ps w Hb Hf Hp) as (w1 & Hit & Hb1 & Hf1 & Hcr1).
    destruct (IH w1 Hb1 Hf1 Hps) as (w' & Hloop & Hcr' & Hb').
    exists w'. split; [|split; [|done]].
    + cbn [length]. by rewrite (loop_turn _ _ _ _ _ _ Hit).
    + rewrite Hcr', Hcr1, <- app_assoc. f_equal. cbn [omap list_omap].
      by destruct (job_of json_loads self p).
Qed.

End Order.

(** X9: on a healthy connection a consumer works its backlog off in queue
    order and then sleeps in [blpop]: the executor has been called once
    for every payload that names a spider of the registry, with that
    spider and the payload's arguments (the empty mapping when [args] is
    missing or not a mapping), in the order of the backlog; the other
    payloads it tolerates have been dropped. *)
Theorem jobs_run_in_queue_order (json_loads : string -> PyExc + pyval)
  (self : Command) (queue_name_suffix key finished rpm : string)
  (payloads : list string) (w : World) :
  queue_backlog_names self !! queue_name_suffix = Some key ->
  queue_finished_counter_names self !! queue_name_suffix = Some finished ->
  queue_consumers_rpm_names self !! queue_name_suffix = Some rpm ->
  backlog w !! key = Some payloads ->
  faults w = [] ->
  Forall (fun p => tolerated json_loads self p = true) payloads ->
  exists w',
    consumer json_loads self queue_name_suffix (S (length payloads)) w
      = (Blocked, w') /\
    crawled w' = (crawled w ++ omap (job_of json_loads self) payloads)%list /\
    backlog w' !! key = Some [].
Proof.
  intros Hk Hf Hr Hb Hfs Htol.
  set (w0 := add_log (consumer_started queue_name_suffix) w).
  assert (Hc : redis_Redis w0 = (Done tt, w0)).
  { unfold redis_Redis, next_fault. simpl. by rewrite Hfs. }
  destruct (healthy_loop_jobs json_loads self queue_name_suffix key finished rpm
              Hk Hf Hr payloads w0 Hb Hfs Htol) as (w' & Hloop & Hcr & Hb').
  exists w'. split; [|done].
  rewrite (consumer_connected _ _ _ _ _ _ Hc). by rewrite Hloop.
Qed.

(** ** Exceptions that escape a turn *)

(** X10: whatever exception escapes a turn of the loop, after any number of
    completed turns, the outer handler logs [QueueWorkerExit] at critical
    level and ends the process with status -1. *)
Theorem escaped_exception_is_fatal (json_loads : string -> PyExc + pyval)
  (self : Command) (queue_name_suffix : string) (n m : nat)
  (w w0 w1 w2 : World) (e : PyExc) :
  redis_Redis (add_log (consumer_started queue_name_suffix) w) = (Done tt, w0) ->
  after_turns json_loads self queue_name_suffix n w0 w1 ->
  consumer_iteration json_loads self queue_name_suffix w1 = (Raised e, w2) ->
  consumer json_loads self queue_name_suffix (n + S m) w
    = (Exited (-1), add_log (worker_exit queue_name_suffix e) w2).
Proof.
  intros Hc Hturns Hit.
  rewrite (consumer_connected _ _ _ _ _ _ Hc).
  rewrite (loop_after_turns _ _ _ _ _ _ _ Hturns).
  by rewrite (loop_raises _ _ _ _ _ _ _ Hit).
Qed.


(** X13: an object whose [spider] the registry cannot look up ends the
    process: the lookup raises before the arguments are read, and the
    outer handler logs [QueueWorkerExit] and exits with status -1 without
    a call of the executor. *)
Theorem unhashable_spider_is_fatal (json_loads : string -> PyExc + pyval)
  (self : Command) (queue_name_suffix payload : string) (d : pydict)
  (e : PyExc) (w w0 w1 : World) (fuel : nat) :
  redis_Redis (add_log (consumer_started queue_name_suffix) w) = (Done tt, w0) ->
  pop_payload self queue_name_suffix w0 = (Done payload, w1) ->
  json_loads payload = inr (PyDict d) ->
  spiders_get (spiders self) (spider_field d) = inl e ->
  consumer json_loads self queue_name_suffix (S fuel) w
    = (Exited (-1),
       add_log (worker_exit queue_name_suffix e) (add_log detected_job w1)) /\
  crawled w1 = crawled w.
Proof.
  intros Hc Hpop Hjson Hsp.
  assert (Hit : consumer_iteration json_loads self queue_name_suffix w0
                = (Raised e, add_log detected_job w1)).
  { rewrite (consumer_iteration_decoded _ _ _ _ _ _ _ Hpop Hjson).
    unfold bind. by rewrite read_task_dict, Hsp. }
  split.
  - rewrite (consumer_connected _ _ _ _ _ _ Hc).
    by rewrite (loop_raises _ _ _ _ _ _ _ Hit).
  - destruct (pop_payload_effect _ _ _ _ _ Hpop) as (k & _ & _ & _ & _ & _ & -> & _).
    unfold redis_Redis, next_fault in Hc. simpl in Hc.
    destruct (faults w) as [|[e0|] fs]; try discriminate;
      by injection Hc as <-.
Qed.

(** X4: a consumer started for a suffix [boot] has made no key for ends the
    process in its first turn: the table lookup raises [KeyError], which
    is logged as a queue error, and no command is ever sent. *)
Theorem unconfigured_queue_is_fatal (json_loads : string -> PyExc + pyval)
  (self : Command) (queue_name_suffix : string) (fuel : nat) (w w0 : World) :
  queue_backlog_names self !! queue_name_suffix = None ->
  redis_Redis (add_log (consumer_started queue_name_suffix) w) = (Done tt, w0) ->
  consumer json_loads self queue_name_suffix (S fuel) w
    = (Exited (-1), add_log (queue_error (KeyError queue_name_suffix)) w0) /\
  issued w0 = issued w.
Proof.
  intros Hk Hc. split.
  - rewrite (consumer_connected _ _ _ _ _ _ Hc).
    assert (Hd : dequeue self queue_name_suffix w0
                 = (Raised (KeyError queue_name_suffix), w0)).
    { unfold dequeue, getitem. by rewrite Hk. }
    by rewrite (loop_exits _ _ _ _ _ _ _ (iteration_queue_error _ _ _ _ _ _ Hd)).
  - unfold redis_Redis, next_fault in Hc. simpl in Hc.
    destruct (faults w) as [|[e0|] fs]; try discriminate;
      by injection Hc as <-.
Qed.

(** ** Faults in the recording step *)

(** X15: when the connection fails at the [EXPIRE] that follows the first
    increment of a fresh RPM counter, the counter is left at 1 without an
    expiry; and from then on no completed recording step gives it one,
    since the value after an increment is never 1 again. *)
Theorem failed_expire_leaves_rpm_without_expiry (self : Command)
  (queue_name_suffix finished rpm : string) (e : PyExc)
  (fs : list (option PyExc)) (w : World) :
  queue_finished_counter_names self !! queue_name_suffix = Some finished ->
  queue_consumers_rpm_names self !! queue_name_suffix = Some rpm ->
  finished ≠ rpm ->
  incremented rpm w = 1 ->
  faults w = None :: None :: Some e :: fs ->
  exists w',
    record_stats self queue_name_suffix w = (Raised e, w') /\
    counters w' !! rpm = Some 1 /\
    expiry w' = expiry w /\
    issued w' = (issued w ++ [INCR finished 1; INCR rpm 1])%list /\
    forall n w2 w3,
      1 <= n -> counters w2 !! rpm = Some n ->
      record_stats self queue_name_suffix w2 = (Done tt, w3) ->
      expiry w3 = expiry w2 /\ counters w3 !! rpm = Some (n + 1).
Proof.
  intros Hf Hr Hne Hfresh Hfs.
  destruct (record_stats self queue_name_suffix w) as [o w'] eqn:Hrec.
  exists w'.
  unfold record_stats, getitem in Hrec. rewrite Hf, Hr in Hrec.
  unfold bind, ret, incr, expire, next_fault, bind in Hrec; simpl in Hrec.
  rewrite Hfs in Hrec; simpl in Hrec.
  rewrite lookup_insert_ne in Hrec by done.
  unfold incremented in Hfresh. rewrite Hfresh in Hrec. simpl in Hrec.
  injection Hrec as <- <-. simpl.
  rewrite lookup_insert_eq, <- app_assoc.
  split; [done|]. split; [done|]. split; [done|]. split; [done|].
  intros n w2 w3 Hn Hc Hrec.
  destruct (record_stats_done self _ _ _ Hf Hr Hne w2 w3 Hrec)
    as (_ & Hrpm & _ & Hexp & _).
  unfold incremented in Hrpm, Hexp. rewrite Hc in Hrpm, Hexp. simpl in *.
  destruct (n + 1 =? 1) eqn:Hcmp; [apply Z.eqb_eq in Hcmp; lia|]. done.
Qed.

(** ** Payloads [json.loads] rejects *)

(** X16: a payload that [json.loads] rejects costs one turn and nothing
    else: the error is logged at critical level as an invalid task
    payload, the executor is not called, no counter or expiry changes, the
    pop is the only command sent, and the loop takes its next turn. *)
Theorem rejected_payload_is_skipped (json_loads : string -> PyExc + pyval)
  (self : Command) (queue_name_suffix payload : string) (e : PyExc)
  (w w1 : World) (fuel : nat) :
  pop_payload self queue_name_suffix w = (Done payload, w1) ->
  json_loads payload = inl e ->
  let w' := add_log (invalid_payload e) w1 in
  consumer_iteration json_loads self queue_name_suffix w = (Done tt, w') /\
  log w' = (log w ++ [invalid_payload e])%list /\
  crawled w' = crawled w /\ counters w' = counters w /\ expiry w' = expiry w /\
  (exists key, queue_backlog_names self !! queue_name_suffix = Some key /\
               issued w' = (issued w ++ [BLPOP key])%list) /\
  consumer_loop json_loads self queue_name_suffix (S fuel) w
    = consumer_loop json_loads self queue_name_suffix fuel w'.
Proof.
  intros Hpop Hjson w'.
  destruct (undecodable_payload_is_skipped json_loads self _ _ _ _ _ fuel
              Hpop Hjson) as (Hit & _ & _ & Hloop).
  destruct (pop_payload_effect _ _ _ _ _ Hpop)
    as (key & Hk & Hi & Hc & He & Hl & Hcr & _).
  subst w'. simpl. rewrite Hl.
  repeat split; try done. eauto.
Qed.

Lemma rejected_payload_is_skipped_witness :
  let w := waiting ["not json"; sample_payload] in
  let w1 := snd (pop_payload sample_command "a" w) in
  let w' := add_log (invalid_payload Json.JSONDecodeError) w1 in
  consumer_iteration json_loads_ascii sample_command "a" w = (Done tt, w') /\
  log w' = (log w ++ [invalid_payload Json.JSONDecodeError])%list /\
  crawled w' = crawled w /\ counters w' = counters w /\ expiry w' = expiry w /\
  (exists key, queue_backlog_names sample_command !! "a" = Some key /\
               issued w' = (issued w ++ [BLPOP key])%list) /\
  consumer_loop json_loads_ascii sample_command "a" 2 w
    = consumer_loop json_loads_ascii sample_command "a" 1 w'.
Proof.
  intros w w1.
  apply (rejected_payload_is_skipped json_loads_ascii sample_command "a"
           "not json" Json.JSONDecodeError w w1 1%nat).
  - vm_compute. reflexivity.
  - reflexivity.
Defined.

(** ** The properties at sample inputs *)

Lemma boot_roles_never_collide_witness :
  "Q.a.BACKLOG" ≠ "Q.b.C.FINISHED." /\ "Q.a.BACKLOG" ≠ "Q.a.C.RPM." /\
  "Q.b.C.FINISHED." ≠ "Q.a.C.RPM.".
Proof.
  apply (boot_roles_never_collide two_queues 4 ∅ "a" "b" "a"); reflexivity.
Defined.

Lemma boot_queues_have_own_keys_witness : "b" = "b".
Proof.
  apply (boot_queues_have_own_keys two_queues 4 ∅ "b" "b" "Q.b.C.RPM.").
  right; right. split; reflexivity.
Defined.

Lemma consumer_books_balance_witness :
  let w := waiting_with mixed_backlog [Some boom; None] in
  let w' := snd (consumer json_loads_ascii sample_command "a" 5 w) in
  exists taken jobs,
    queued "Q.a.BACKLOG" w = (taken ++ queued "Q.a.BACKLOG" w')%list /\
    crawled w' = (crawled w ++ jobs)%list /\
    (length jobs <= length taken)%nat /\
    0 <= counter "Q.a.C.FINISHED." w' - counter "Q.a.C.FINISHED." w
      <= Z.of_nat (length jobs).
Proof.
  apply (consumer_books_balance json_loads_ascii sample_command "a"
           "Q.a.BACKLOG" "Q.a.C.FINISHED." "Q.a.C.RPM." 5%nat
           (waiting_with mixed_backlog [Some boom; None]));
    [reflexivity | reflexivity | reflexivity | discriminate].
Defined.

Lemma jobs_run_in_queue_order_witness :
  let w := waiting_with mixed_backlog [Some boom; None] in
  exists w',
    consumer json_loads_ascii sample_command "a" 5 w = (Blocked, w') /\
    crawled w' = [(sample_spider, [("x", PyInt 1)]); (sample_spider, [])] /\
    backlog w' !! "Q.a.BACKLOG" = Some [].
Proof.
  apply (jobs_run_in_queue_order json_loads_ascii sample_command "a"
           "Q.a.BACKLOG" "Q.a.C.FINISHED." "Q.a.C.RPM." mixed_backlog
           (waiting_with mixed_backlog [Some boom; None]));
    [reflexivity | reflexivity | reflexivity | reflexivity | reflexivity |].
  repeat constructor.
Defined.

Lemma escaped_exception_is_fatal_witness :
  let w := waiting [sample_payload; array_payload] in
  let w0 := snd (redis_Redis (add_log (consumer_started "a") w)) in
  let w1 := snd (consumer_iteration json_loads_ascii sample_command "a" w0) in
  let w2 := snd (consumer_iteration json_loads_ascii sample_command "a" w1) in
  consumer json_loads_ascii sample_command "a" (1 + 1) w
    = (Exited (-1),
       add_log (worker_exit "a" (AttributeError (PyList [PyInt 1]) "get")) w2).
Proof.
  intros w w0 w1 w2.
  apply (escaped_exception_is_fatal json_loads_ascii sample_command "a"
           1%nat 0%nat w w0 w1 w2).
  - vm_compute. reflexivity.
  - exists w1. split; [|reflexivity]. vm_compute. reflexivity.
  - vm_compute. reflexivity.
Defined.


Lemma unhashable_spider_is_fatal_witness :
  let w := waiting [list_spider_payload] in
  let w0 := snd (redis_Redis (add_log (consumer_started "a") w)) in
  let w1 := snd (pop_payload sample_command "a" w0) in
  consumer json_loads_ascii sample_command "a" 1 w
    = (Exited (-1),
       add_log (worker_exit "a" (UnhashableType (PyList [PyInt 1])))
               (add_log detected_job w1)) /\
  crawled w1 = crawled w.
Proof.
  intros w w0 w1.
  apply (unhashable_spider_is_fatal json_loads_ascii sample_command "a"
           list_spider_payload
           [("spider", PyList [PyInt 1]); ("args", PyStr "x")]
           (UnhashableType (PyList [PyInt 1])) w w0 w1 0%nat).
  - vm_compute. reflexivity.
  - vm_compute. reflexivity.
  - reflexivity.
  - reflexivity.
Defined.

Lemma unconfigured_queue_is_fatal_witness :
  let w0 := snd (redis_Redis (add_log (consumer_started "b") quiet_world)) in
  consumer json_loads_ascii sample_command "b" 1 quiet_world
    = (Exited (-1), add_log (queue_error (KeyError "b")) w0) /\
  issued w0 = issued quiet_world.
Proof.
  intros w0.
  apply (unconfigured_queue_is_fatal json_loads_ascii sample_command "b"
           0%nat quiet_world w0).
  - reflexivity.
  - vm_compute. reflexivity.
Defined.

Lemma non_object_payload_is_fatal_witness :
  let w := waiting [array_payload] in
  let w0 := snd (redis_Redis (add_log (consumer_started "a") w)) in
  let w1 := snd (pop_payload sample_command "a" w0) in
  consumer json_loads_ascii sample_command "a" 1 w
    = (Exited (-1),
       add_log (worker_exit "a" (AttributeError (PyList [PyInt 1]) "get"))
               (add_log detected_job w1)).
Proof.
  intros w w0 w1.
  apply (non_object_payload_is_fatal json_loads_ascii sample_command "a"
           array_payload (PyList [PyInt 1]) w w0 w1 0%nat).
  - vm_compute. reflexivity.
  - vm_compute. reflexivity.
  - reflexivity.
  - reflexivity.
Defined.

Lemma failed_expire_leaves_rpm_without_expiry_witness :
  exists w',
    record_stats sample_command "a" failing_at_expire
      = (Raised connection_lost, w') /\
    counters w' !! "Q.a.C.RPM." = Some 1 /\
    expiry w' = ∅ /\
    issued w' = [INCR "Q.a.C.FINISHED." 1; INCR "Q.a.C.RPM." 1] /\
    forall n w2 w3,
      1 <= n -> counters w2 !! "Q.a.C.RPM." = Some n ->
      record_stats sample_command "a" w2 = (Done tt, w3) ->
      expiry w3 = expiry w2 /\ counters w3 !! "Q.a.C.RPM." = Some (n + 1).
Proof.
  apply (failed_expire_leaves_rpm_without_expiry sample_command "a"
           "Q.a.C.FINISHED." "Q.a.C.RPM." connection_lost [] failing_at_expire).
  - reflexivity.
  - reflexivity.
  - discriminate.
  - reflexivity.
  - reflexivity.
Defined.

(** ** The RPM counter over a whole turn *)

(** C4 (amended): a turn that has taken a payload and ended normally has
    either called the executor or skipped the job.  When it called the
    executor (the payload names a spider of the registry), it has
    incremented the finished counter and the RPM counter by one, and it
    has sent [EXPIRE] with 60 seconds for the RPM key if and only if the
    value of the RPM counter after the increment is 1; otherwise the
    expiry table is as before.  When it skipped the job (undecodable
    payload or unknown spider), it has sent no command after the pop and
    counters and expiries are untouched. *)
Theorem rpm_expiry_on_dispatched_turn (json_loads : string -> PyExc + pyval)
  (self : Command) (queue_name_suffix finished rpm payload : string)
  (w w1 w' : World) :
  queue_finished_counter_names self !! queue_name_suffix = Some finished ->
  queue_consumers_rpm_names self !! queue_name_suffix = Some rpm ->
  finished ≠ rpm ->
  pop_payload self queue_name_suffix w = (Done payload, w1) ->
  consumer_iteration json_loads self queue_name_suffix w = (Done tt, w') ->
  let n := incremented rpm w in
  if dispatches json_loads self payload
  then
    counters w' !! finished = Some (incremented finished w) /\
    counters w' !! rpm = Some n /\
    (n = 1 ->
       issued w' = (issued w1 ++ [INCR finished 1; INCR rpm 1; EXPIRE rpm 60])%list /\
       expiry w' = <[rpm := 60]> (expiry w)) /\
    (n ≠ 1 ->
       issued w' = (issued w1 ++ [INCR finished 1; INCR rpm 1])%list /\
       expiry w' = expiry w)
  else
    counters w' = counters w /\ expiry w' = expiry w /\ issued w' = issued w1.
Proof.
  intros Hf Hr Hne Hpop Hdone n.
  destruct (pop_payload_effect _ _ _ _ _ Hpop)
    as (key & _ & _ & Hc1 & He1 & _ & _ & _).
  unfold dispatches.
  destruct (json_loads payload) as [e|task] eqn:Hjson.
  { destruct (undecodable_payload_is_skipped json_loads self _ _ _ _ _ 0%nat
                Hpop Hjson) as (Hit & _).
    rewrite Hit in Hdone. injection Hdone as <-. simpl. done. }
  pose proof (consumer_iteration_decoded _ _ _ _ _ _ _ Hpop Hjson) as Hit.
  rewrite Hit in Hdone. clear Hit.
  destruct (isinstance_dict task) eqn:Hd;
    [|by rewrite (bind_Raised _ _ _ _ _
                    (read_task_not_dict self task (add_log detected_job w1) Hd))
        in Hdone].
  destruct task as [| | | | | |d]; try discriminate. clear Hd.
  destruct (read_task self (PyDict d) (add_log detected_job w1))
    as [o2 w2] eqn:Hread.
  pose proof (read_task_effect _ _ _ _ _ Hread)
    as (_ & Hc2 & He2 & _ & _ & _ & Hi2).
  simpl in Hc2, He2, Hi2.
  rewrite read_task_dict in Hread.
  destruct (spiders_get (spiders self) (spider_field d)) as [e|spider] eqn:Hsp.
  { injection Hread as <- <-. unfold bind in Hdone.
    by rewrite read_task_dict, Hsp in Hdone. }
  assert (exists a, read_task self (PyDict d) (add_log detected_job w1)
                    = (Done (spider_field d, spider, a), w2)) as (a & Hread').
  { rewrite read_task_dict, Hsp.
    destruct (args_field d); injection Hread as <- <-; eauto. }
  rewrite (bind_Done _ _ _ _ _ Hread') in Hdone. cbn [fst snd] in Hdone.
  destruct spider as [h|]; [destruct (handle_truth h) eqn:Ht|].
  - rewrite finish_job_known in Hdone by done.
    destruct (run_crawl_total h a w2)
      as (w3 & Hrun & _ & _ & Hc3 & He3 & _ & Hi3).
    rewrite (bind_Done _ _ _ _ _ Hrun) in Hdone.
    destruct (record_stats_done self _ _ _ Hf Hr Hne w3 w' Hdone)
      as (Hfin & Hrpm & Hiss & Hexp & _).
    assert (Hsame : forall k, incremented k w3 = incremented k w)
      by (intros k; unfold incremented; by rewrite Hc3, Hc2, Hc1).
    rewrite !Hsame in Hfin, Hrpm, Hiss, Hexp.
    rewrite Hi3, Hi2 in Hiss. rewrite He3, He2, He1 in Hexp. subst n.
    split; [done|]. split; [done|]. split; intros Hn.
    + apply Z.eqb_eq in Hn. by rewrite Hn in Hiss, Hexp.
    + apply Z.eqb_neq in Hn. by rewrite Hn in Hiss, Hexp.
  - rewrite finish_job_unknown in Hdone by (simpl; by rewrite Ht).
    injection Hdone as <-. simpl. rewrite Hc2, He2, Hi2, Hc1, He1. done.
  - rewrite finish_job_unknown in Hdone by done.
    injection Hdone as <-. simpl. rewrite Hc2, He2, Hi2, Hc1, He1. done.
Qed.

Lemma rpm_expiry_on_dispatched_turn_witness :
  let w := waiting [sample_payload] in
  let w1 := snd (pop_payload sample_command "a" w) in
  let w' := snd (consumer_iteration json_loads_ascii sample_command "a" w) in
  counters w' !! "Q.a.C.FINISHED." = Some 1 /\
  counters w' !! "Q.a.C.RPM." = Some 1 /\
  (1 = 1 ->
     issued w' = (issued w1 ++ [INCR "Q.a.C.FINISHED." 1; INCR "Q.a.C.RPM." 1;
                                EXPIRE "Q.a.C.RPM." 60])%list /\
     expiry w' = <[ "Q.a.C.RPM." := 60 ]> (expiry w)) /\
  (1 ≠ 1 ->
     issued w' = (issued w1 ++ [INCR "Q.a.C.FINISHED." 1; INCR "Q.a.C.RPM." 1])%list /\
     expiry w' = expiry w).
Proof.
  intros w w1 w'.
  apply (rpm_expiry_on_dispatched_turn json_loads_ascii sample_command "a"
           "Q.a.C.FINISHED." "Q.a.C.RPM." sample_payload w w1 w').
  - reflexivity.
  - reflexivity.
  - discriminate.
  - vm_compute. reflexivity.
  - vm_compute. reflexivity.
Defined.

(** C4 as stated fails: the turn on a job for an unknown spider completes
    normally, and so does the turn on a text that is not JSON, yet after
    both the RPM counter has not been incremented (the key does not even
    exist), no [INCR] or [EXPIRE] has been sent and no expiry is set. *)
Lemma skipped_turns_leave_rpm_alone :
  let w := waiting [unknown_payload; "not json"] in
  let r1 := consumer_iteration json_loads_ascii sample_command "a" w in
  let r2 := consumer_iteration json_loads_ascii sample_command "a" (snd r1) in
  fst r1 = Done tt /\ fst r2 = Done tt /\
  counters (snd r2) !! "Q.a.C.RPM." = None /\
  counters (snd r2) !! "Q.a.C.RPM." ≠ Some (incremented "Q.a.C.RPM." w) /\
  expiry (snd r2) !! "Q.a.C.RPM." = None /\
  issued (snd r2) = [BLPOP "Q.a.BACKLOG"; BLPOP "Q.a.BACKLOG"].
Proof. vm_compute. repeat split. discriminate. Qed.

(** ** A payload with two malformed fields *)

(** C6, at a payload the code mishandles: the object
    [{"spider": [1], "args": "x"}] has an [args] entry that is not a
    mapping, yet no warning is logged and the arguments are never
    replaced: the registry lookup of line 155 raises [TypeError] on the
    list before the check of line 158 is reached, and the outer handler
    ends the process with status -1. *)
Theorem bad_args_behind_list_spider_end_process :
  let r := consumer json_loads_ascii sample_command "a" 3
             (waiting [list_spider_payload; sample_payload]) in
  json_loads_ascii list_spider_payload
    = inr (PyDict [("spider", PyList [PyInt 1]); ("args", PyStr "x")]) /\
  isinstance_dict (PyStr "x") = false /\
  fst r = Exited (-1) /\
  log (snd r) = [consumer_started "a"; detected_job;
                 worker_exit "a" (UnhashableType (PyList [PyInt 1]))] /\
  ~ In WARNING (map log_level (log (snd r))) /\
  crawled (snd r) = [] /\
  backlog (snd r) !! "Q.a.BACKLOG" = Some [sample_payload].
Proof.
  vm_compute. repeat split. intros [H|[H|[H|[]]]]; discriminate H.
Qed.

(** ** A fault at the first increment *)

(** X14: when the increment of the finished counter raises, the job has
    already been handed to the executor, once and with its arguments, and
    its payload is not put back: the exception escapes the turn and the
    outer handler ends the process with [QueueWorkerExit] and status
    -1. *)
Theorem failed_increment_after_crawl_is_fatal
  (json_loads : string -> PyExc + pyval) (self : Command)
  (queue_name_suffix payload finished : string) (d : pydict) (h : handle)
  (e : PyExc) (fs : list (option PyExc)) (n m : nat) (w w0 wa w1 : World) :
  redis_Redis (add_log (consumer_started queue_name_suffix) w) = (Done tt, w0) ->
  after_turns json_loads self queue_name_suffix n w0 wa ->
  pop_payload self queue_name_suffix wa = (Done payload, w1) ->
  json_loads payload = inr (PyDict d) ->
  spiders_get (spiders self) (spider_field d) = inr (Some h) ->
  handle_truth h = true ->
  queue_finished_counter_names self !! queue_name_suffix = Some finished ->
  faults w1 = Some e :: fs ->
  exists w',
    consumer_iteration json_loads self queue_name_suffix wa = (Raised e, w') /\
    consumer json_loads self queue_name_suffix (n + S m) w
      = (Exited (-1), add_log (worker_exit queue_name_suffix e) w') /\
    crawled w' = (crawled wa ++ [(h, args_of d)])%list /\
    backlog w' = backlog w1.
Proof.
  intros Hc Hturns Hpop Hjson Hsp Ht Hf Hfs.
  pose proof (consumer_iteration_decoded _ _ _ _ _ _ _ Hpop Hjson) as Hit.
  assert (exists w2, read_task self (PyDict d) (add_log detected_job w1)
                     = (Done (spider_field d, Some h, args_of d), w2))
    as (w2 & Hread).
  { rewrite read_task_dict, Hsp. unfold args_of. destruct (args_field d); eauto. }
  pose proof (read_task_effect _ _ _ _ _ Hread)
    as (Hb2 & _ & _ & Hf2 & _ & Hcr2 & _).
  simpl in Hb2, Hf2, Hcr2.
  rewrite (bind_Done _ _ _ _ _ Hread) in Hit. cbn [fst snd] in Hit.
  rewrite finish_job_known in Hit by done.
  destruct (run_crawl_total h (args_of d) w2)
    as (w3 & Hrun & Hcr3 & Hb3 & _ & _ & Hf3 & _).
  rewrite (bind_Done _ _ _ _ _ Hrun) in Hit.
  assert (Hrec : record_stats self queue_name_suffix w3
                 = (Raised e, set_faults fs w3)).
  { unfold record_stats, getitem. rewrite Hf.
    unfold bind, ret, incr, bind, next_fault. simpl.
    by rewrite Hf3, Hf2, Hfs. }
  rewrite Hrec in Hit.
  destruct (pop_payload_effect _ _ _ _ _ Hpop) as (k & _ & _ & _ & _ & _ & Hcr1 & _).
  exists (set_faults fs w3). split; [exact Hit|]. split.
  - rewrite (consumer_connected _ _ _ _ _ _ Hc).
    rewrite (loop_after_turns _ _ _ _ _ _ _ Hturns).
    by rewrite (loop_raises _ _ _ _ _ _ _ Hit).
  - simpl. split; congruence.
Qed.

Lemma failed_increment_after_crawl_is_fatal_witness :
  let w := failing_later_at_increment in
  let w0 := snd (redis_Redis (add_log (consumer_started "a") w)) in
  let w1 := snd (pop_payload sample_command "a" w0) in
  exists w',
    consumer_iteration json_loads_ascii sample_command "a" w0
      = (Raised connection_lost, w') /\
    consumer json_loads_ascii sample_command "a" (0 + 1) w
      = (Exited (-1), add_log (worker_exit "a" connection_lost) w') /\
    crawled w' = [(sample_spider, [("x", PyInt 1)])] /\
    backlog w' = backlog w1.
Proof.
  intros w w0 w1.
  apply (failed_increment_after_crawl_is_fatal json_loads_ascii sample_command
           "a" sample_payload "Q.a.C.FINISHED." sample_task sample_spider
           connection_lost [] 0%nat 0%nat w w0 w0 w1).
  - vm_compute. reflexivity.
  - reflexivity.
  - vm_compute. reflexivity.
  - reflexivity.
  - reflexivity.
  - reflexivity.
  - reflexivity.
  - reflexivity.
Defined.
